(** * neon-flash-esp: the flashing service and the step reconciler

    A shallow embedding of [src/services/FlashService.ts] and of the
    flash handler of the [Index] page, with the properties of the
    connection / flash orchestration state machine.

    Modelling conventions.
    - A JavaScript [number] that the code only uses as an integer (byte
      counts, loop counters, indices, the baud rate) is a [Z].  Every byte
      count derives from [File.size], which is below 2^53, so the double
      arithmetic of the source ([Math.ceil (totalBytes / 50)], the product
      with [i + 1], [Math.min]) is exact and coincides with the integer
      arithmetic used here.
    - The progress percentage is a genuine fraction; it is an IEEE-754
      binary64 value ([float]), computed with the same operations in the same
      order as the source.
    - [undefined] is [None]: an array read [steps[i]] is stdpp's [steps !! i].
    - A thrown [Error] is the left injection of a sum; [await] points with
      no effect on the state ([sleep]) are dropped.
    - The progress callback is a state transformer of the consumer; the
      platform (the ports the Web Serial API has open, the outcome of the
      port chooser, [Math.random]) is explicit. *)

From Stdlib Require Import ZArith QArith Qabs Qround Floats Uint63 Ascii Sorted Lia.
From stdpp Require Import base option list list_numbers sorting strings pretty gmap.

Close Scope Q_scope.
Local Open Scope Z_scope.

(** ** JavaScript helpers *)

Module Js.

(** An integer-valued [number] as a double. *)
Definition of_Z (z : Z) : float := PrimFloat.of_uint63 (Uint63.of_Z z).

(** The exact rational value of a finite double. *)
Definition to_Q (x : float) : option Q :=
  match Prim2SF x with
  | S754_zero _ => Some 0%Q
  | S754_finite sg m e =>
      let v := if 0 <=? e then inject_Z (Z.pos m * 2 ^ e)
               else Qmake (Z.pos m) (Z.to_pos (2 ^ (- e))) in
      Some (if sg then Qopp v else v)
  | S754_infinity _ | S754_nan => None
  end.

(** [Math.floor], on a finite double. *)
Definition Math_floor (x : float) : option Z :=
  q ← to_Q x; Some (Qfloor q).

(** [Math.ceil (a / b)] for integers [a] and positive [b]. *)
Definition Math_ceil_div (a b : Z) : Z := - ((- a) / b).

(** [(a / 2^k).toFixed(1)] for a non-negative integer [a]: the quotient
    is an exact double, and [toFixed] picks the integer [n] nearest to ten
    times its value, the larger one on a tie. *)
Definition toFixed1_div (a d : Z) : string :=
  let n := (20 * a + d) / (2 * d) in
  pretty (n / 10) +:+ "." +:+ pretty (n mod 10).

(** [toUpperCase] on ASCII letters. *)
Definition upper (c : ascii) : ascii :=
  let n := nat_of_ascii c in
  if (97 <=? n)%nat && (n <=? 122)%nat then ascii_of_nat (n - 32) else c.

Fixpoint toUpperCase (s : string) : string :=
  match s with
  | EmptyString => EmptyString
  | String c r => String (upper c) (toUpperCase r)
  end.

(** [s.substr(start, len)] *)
Definition substr (start len : nat) (s : string) : string :=
  String.substring start len s.

(** An [Error] object: its [name] and its [message]. *)
Record Error := mkError { name : string; message : string }.

(** [new Error(msg)] *)
Definition new_Error (msg : string) : Error := mkError "Error" msg.

(** [l.indexOf(x)], with [x] possibly [undefined]. *)
Fixpoint indexOf_from (k : Z) (l : list string) (x : option string) : Z :=
  match l with
  | [] => -1
  | y :: r => if bool_decide (Some y = x) then k else indexOf_from (k + 1) r x
  end.

Definition indexOf (l : list string) (x : option string) : Z :=
  indexOf_from 0 l x.

End Js.

(** ** The service: [src/services/FlashService.ts] *)

Module FlashService.

Record SerialPort := mkPort {
  port_id : nat;                    (* identity of the port object *)
  usbProductId : option string      (* [getInfo().usbProductId] *)
}.

Record DeviceInfo := mkDeviceInfo {
  chip : option string;             (* [chips[k]]: a string or undefined *)
  port_label : string;              (* field [port] *)
  mac : option string
}.

Record File := mkFile {
  file_name : string;
  size : N
}.

Record FlashOptions := mkOptions {
  file : File;
  baudRate : Z;
  offset : string;
  eraseFlash : bool
}.

Record FlashProgress := mkProgress {
  step : option string;
  progress : float;
  bytesWritten : Z;
  totalBytes : Z;
  message : string
}.

(** The object: its field [port] (the field [espTool] is never written),
    together with the platform's set of ports that are open. *)
Record t := mk {
  port : option SerialPort;
  open_ports : gset nat
}.

Definition init : t := mk None ∅.

(** What the platform answers during one [connect]: the port chooser
    ([requestPort]), the [open] of a closed port, and the two draws of
    [Math.random] in [detectDevice] (the second one already printed by
    [toString(16)]). *)
Record ConnectEnv := mkEnv {
  requestPort : Js.Error + SerialPort;
  open_fails : option Js.Error;
  random_chip : float;
  random_mac : string
}.

(** [port.open(...)] of the Web Serial API: rejected with
    [InvalidStateError] on a port that is open already. *)
Definition SerialPort_open (env : ConnectEnv) (p : SerialPort) (ports : gset nat)
  : gset nat * (Js.Error + ()) :=
  if decide (port_id p ∈ ports)
  then (ports, inl (Js.mkError "InvalidStateError" "The port is already open."))
  else match open_fails env with
       | Some e => (ports, inl e)
       | None => ({[ port_id p ]} ∪ ports, inr ())
       end.

(** [port.close()] of the Web Serial API: rejected with
    [InvalidStateError] on a port that is not open. *)
Definition SerialPort_close (p : SerialPort) (ports : gset nat)
  : gset nat * (Js.Error + ()) :=
  if decide (port_id p ∈ ports)
  then (ports ∖ {[ port_id p ]}, inr ())
  else (ports, inl (Js.mkError "InvalidStateError" "The port is already closed.")).

Definition chips : list string :=
  ["ESP32"; "ESP32-S2"; "ESP32-S3"; "ESP32-C3"; "ESP8266"].

Definition detectDevice (env : ConnectEnv) (self : t) : DeviceInfo :=
  let randomChip :=
    k ← Js.Math_floor (random_chip env * Js.of_Z (Z.of_nat (length chips)))%float;
    if 0 <=? k then chips !! Z.to_nat k else None in
  {| chip := randomChip;
     port_label :=
       match port self ≫= usbProductId with
       | Some (String _ _) => "USB"
       | _ => "Serial"
       end;
     mac := Some ("24:6F:28:" +:+ Js.toUpperCase (Js.substr 2 6 (random_mac env))) |}.

Definition connect_failed (error : Js.Error) : Js.Error :=
  Js.new_Error ("Failed to connect: " +:+ Js.message error).

Definition connect (env : ConnectEnv) (self : t) : t * (Js.Error + DeviceInfo) :=
  match requestPort env with
  | inl error => (self, inl (connect_failed error))
  | inr p =>
      let self := mk (Some p) (open_ports self) in
      match SerialPort_open env p (open_ports self) with
      | (ports, inl error) => (mk (port self) ports, inl (connect_failed error))
      | (ports, inr _) =>
          let self := mk (port self) ports in
          (self, inr (detectDevice env self))
      end
  end.

(** [disconnect()]: the session it leaves and how its promise settles.
    When [close] rejects, the assignment [this.port = null] is not reached. *)
Definition disconnect_call (self : t) : t * (Js.Error + ()) :=
  match port self with
  | Some p =>
      match SerialPort_close p (open_ports self) with
      | (ports, inr _) => (mk None ports, inr ())
      | (ports, inl error) => (mk (port self) ports, inl error)
      end
  | None => (self, inr ())
  end.

(** The session after [disconnect()]. *)
Definition disconnect (self : t) : t := (disconnect_call self).1.

Definition formatBytes (bytes : Z) : string :=
  if bytes <? 1024 then pretty bytes +:+ " B"
  else if bytes <? 1024 * 1024 then Js.toFixed1_div bytes 1024 +:+ " KB"
  else Js.toFixed1_div bytes (1024 * 1024) +:+ " MB".

(** The list [steps] of [flash]. *)
Definition steps (options : FlashOptions) : list string :=
  ["Connecting"; "Syncing"] ++
  (if eraseFlash options then ["Erasing"] else []) ++
  ["Writing"; "Verifying"; "Done"].

Definition chunks : Z := 50.

Section flash.
Context {St : Type}.
Variable onProgress : FlashProgress → St → St.

(** The helper [updateProgress] of [flash]. *)
Definition updateProgress (totalBytes : Z)
    (step : option string) (progress : float) (bytesWritten : Z)
    (message : string) : St → St :=
  onProgress (mkProgress step progress bytesWritten totalBytes message).

(** One turn of the writing loop. *)
Definition write_chunk (steps : list string) (currentStep : nat)
    (totalBytes chunkSize : Z) (writeStartProgress writeEndProgress : float)
    (σ : St) (i : Z) : St :=
  let bytesWritten := Z.min ((i + 1) * chunkSize) totalBytes in
  let progress :=
    (writeStartProgress +
     ((writeEndProgress - writeStartProgress) * Js.of_Z (i + 1)) / Js.of_Z chunks)%float in
  updateProgress totalBytes (steps !! currentStep) progress bytesWritten
    ("Writing: " +:+ formatBytes bytesWritten +:+ "/" +:+ formatBytes totalBytes) σ.

Definition flash (self : t) (options : FlashOptions) (σ : St) : St * (Js.Error + ()) :=
  match port self with
  | None => (σ, inl (Js.new_Error "No device connected"))
  | Some _ =>
      let steps := steps options in
      let currentStep := 0%nat in
      let totalBytes := Z.of_N (size (file options)) in
      let updateProgress := updateProgress totalBytes in
      (* Step 1: Connecting *)
      let σ := updateProgress (steps !! currentStep) 0%float 0 "Establishing connection..." σ in
      let currentStep := S currentStep in
      (* Step 2: Syncing *)
      let σ := updateProgress (steps !! currentStep) 10%float 0 "Syncing with device..." σ in
      let currentStep := S currentStep in
      (* Step 3: Erasing (if enabled) *)
      let '(σ, currentStep) :=
        if eraseFlash options
        then (updateProgress (steps !! currentStep) 20%float 0 "Erasing flash memory..." σ,
              S currentStep)
        else (σ, currentStep) in
      (* Step 4: Writing *)
      let writeStartProgress := if eraseFlash options then 30%float else 20%float in
      let writeEndProgress := 85%float in
      let σ := updateProgress (steps !! currentStep) writeStartProgress 0 "Writing firmware..." σ in
      let chunkSize := Js.Math_ceil_div totalBytes chunks in
      let σ :=
        foldl (write_chunk steps currentStep totalBytes chunkSize
                 writeStartProgress writeEndProgress) σ (seqZ 0 chunks) in
      let currentStep := S currentStep in
      (* Step 5: Verifying *)
      let σ := updateProgress (steps !! currentStep) 90%float totalBytes "Verifying flash..." σ in
      let currentStep := S currentStep in
      (* Step 6: Done *)
      let σ := updateProgress (steps !! currentStep) 100%float totalBytes
                 "Flash completed successfully!" σ in
      (σ, inr ())
  end.
End flash.

(** The events of a run, in emission order: [flash] with a callback that
    records what it receives. *)
Definition record_event (e : FlashProgress) (log : list FlashProgress) : list FlashProgress :=
  log ++ [e].

Definition flash_events (self : t) (options : FlashOptions) : list FlashProgress :=
  (flash record_event self options []).1.

Definition flash_result (self : t) (options : FlashOptions) : Js.Error + () :=
  (flash record_event self options []).2.

Definition getErrorMessage (error : Js.Error) : string :=
  if bool_decide (Js.name error = "NotFoundError") then
    "No device selected. Please connect your ESP device and try again."
  else if bool_decide (Js.name error = "NotSupportedError") then
    "Web Serial is not supported in this browser. Please use Chrome or Edge."
  else if bool_decide (Js.name error = "SecurityError") then
    "Permission denied. Please allow access to the serial port."
  else if bool_decide (Js.name error = "NetworkError") then
    "Failed to communicate with device. Check your connection and try again."
  else match Js.message error with
       | EmptyString => "An unknown error occurred"
       | m => m
       end.

Definition getErrorSuggestion (error : Js.Error) : string :=
  if bool_decide (Js.name error = "NotFoundError") then
    "Make sure your ESP device is connected via USB and try clicking Connect again."
  else if bool_decide (Js.name error = "NetworkError") then
    "Try holding BOOT button, pressing RESET, then releasing BOOT and retry."
  else "Check your device connection and try again.".

End FlashService.

(** ** The page: the flash handler of [Index] and its step reconciler *)

Module Index.

Inductive FlashStepStatus := pending | active | completed | error.

Global Instance FlashStepStatus_eq_dec : EqDecision FlashStepStatus.
Proof. solve_decision. Defined.

Record FlashStep := mkStep {
  name : string;
  status : FlashStepStatus
}.

Global Instance FlashStep_eq_dec : EqDecision FlashStep.
Proof. solve_decision. Defined.

Record AdvancedSettings := mkSettings {
  baudRate : Z;
  offset : string;
  eraseFlash : bool
}.

Record FlashStats := mkStats {
  chip : string;
  stats_baudRate : Z;
  fileSize : N;
  duration : Z
}.

(** The state of the component that the flash handler reads and writes
    (toasts are not part of it). *)
Record t := mk {
  isConnected : bool;
  deviceInfo : option FlashService.DeviceInfo;
  firmwareFile : option FlashService.File;
  advancedSettings : AdvancedSettings;
  isFlashing : bool;
  flashProgress : float;
  flashLogs : list string;
  flashSteps : list FlashStep;
  flashError : option string;
  flashCompleted : bool;
  flashStats : option FlashStats
}.

Definition setIsFlashing (v : bool) (ui : t) : t :=
  mk (isConnected ui) (deviceInfo ui) (firmwareFile ui) (advancedSettings ui)
     v (flashProgress ui) (flashLogs ui) (flashSteps ui) (flashError ui)
     (flashCompleted ui) (flashStats ui).
Definition setFlashProgress (v : float) (ui : t) : t :=
  mk (isConnected ui) (deviceInfo ui) (firmwareFile ui) (advancedSettings ui)
     (isFlashing ui) v (flashLogs ui) (flashSteps ui) (flashError ui)
     (flashCompleted ui) (flashStats ui).
Definition setFlashLogs (f : list string → list string) (ui : t) : t :=
  mk (isConnected ui) (deviceInfo ui) (firmwareFile ui) (advancedSettings ui)
     (isFlashing ui) (flashProgress ui) (f (flashLogs ui)) (flashSteps ui) (flashError ui)
     (flashCompleted ui) (flashStats ui).
Definition setFlashSteps (f : list FlashStep → list FlashStep) (ui : t) : t :=
  mk (isConnected ui) (deviceInfo ui) (firmwareFile ui) (advancedSettings ui)
     (isFlashing ui) (flashProgress ui) (flashLogs ui) (f (flashSteps ui)) (flashError ui)
     (flashCompleted ui) (flashStats ui).
Definition setFlashError (v : option string) (ui : t) : t :=
  mk (isConnected ui) (deviceInfo ui) (firmwareFile ui) (advancedSettings ui)
     (isFlashing ui) (flashProgress ui) (flashLogs ui) (flashSteps ui) v
     (flashCompleted ui) (flashStats ui).
Definition setFlashCompleted (v : bool) (ui : t) : t :=
  mk (isConnected ui) (deviceInfo ui) (firmwareFile ui) (advancedSettings ui)
     (isFlashing ui) (flashProgress ui) (flashLogs ui) (flashSteps ui) (flashError ui)
     v (flashStats ui).
Definition setFlashStats (v : option FlashStats) (ui : t) : t :=
  mk (isConnected ui) (deviceInfo ui) (firmwareFile ui) (advancedSettings ui)
     (isFlashing ui) (flashProgress ui) (flashLogs ui) (flashSteps ui) (flashError ui)
     (flashCompleted ui) v.

(** The initial value of [flashSteps]. *)
Definition initialSteps : list FlashStep :=
  [ mkStep "Connecting" pending; mkStep "Syncing" pending; mkStep "Erasing" pending;
    mkStep "Writing" pending; mkStep "Verifying" pending; mkStep "Done" pending ].

(** The list [steps] of [handleFlash]. *)
Definition steps (s : AdvancedSettings) : list string :=
  ["Connecting"; "Syncing"] ++
  (if eraseFlash s then ["Erasing"] else []) ++
  ["Writing"; "Verifying"; "Done"].

(** "Reset steps": every phase of the plan, pending. *)
Definition seed (steps : list string) : list FlashStep :=
  (λ name, mkStep name pending) <$> steps.

(** "Update step status": the updater given to [setFlashSteps] by the
    progress callback. *)
Definition reconcile (steps : list string) (progress : FlashService.FlashProgress)
    (prev : list FlashStep) : list FlashStep :=
  imap (λ index step,
    if bool_decide (Some (name step) = FlashService.step progress)
    then mkStep (name step) active
    else
      (* Mark previous steps as completed *)
      let currentIndex := Js.indexOf steps (FlashService.step progress) in
      if Z.of_nat index <? currentIndex
      then mkStep (name step) completed
      else step) prev.

(** The progress callback of [handleFlash]. *)
Definition onProgress (steps : list string) (progress : FlashService.FlashProgress)
    (ui : t) : t :=
  let ui := setFlashProgress (FlashService.progress progress) ui in
  let ui := setFlashLogs (λ prev, prev ++ [FlashService.message progress]) ui in
  setFlashSteps (reconcile steps progress) ui.

(** "Mark all steps as completed" *)
Definition markAllCompleted (prev : list FlashStep) : list FlashStep :=
  (λ step, mkStep (name step) completed) <$> prev.

(** "Mark current step as error" *)
Definition markActiveError (prev : list FlashStep) : list FlashStep :=
  (λ step, if bool_decide (status step = active)
           then mkStep (name step) error else step) <$> prev.

(** [handleFlash]; [startTime] and [endTime] are the two readings of
    [Date.now()]. *)
Definition handleFlash (flashService : FlashService.t) (startTime endTime : Z)
    (ui : t) : t :=
  match firmwareFile ui with
  | None => ui
  | Some firmwareFile =>
      if negb (isConnected ui) then ui else
      let settings := advancedSettings ui in
      let deviceInfo := deviceInfo ui in
      let ui := setIsFlashing true ui in
      let ui := setFlashError None ui in
      let ui := setFlashCompleted false ui in
      let ui := setFlashProgress 0%float ui in
      let ui := setFlashLogs (λ _, []) ui in
      (* Reset steps *)
      let steps := steps settings in
      let ui := setFlashSteps (λ _, seed steps) ui in
      let options :=
        FlashService.mkOptions firmwareFile (baudRate settings) (offset settings)
          (eraseFlash settings) in
      let ui :=
        match FlashService.flash (onProgress steps) flashService options ui with
        | (ui, inr _) =>
            let ui := setFlashSteps markAllCompleted ui in
            let ui := setFlashCompleted true ui in
            let duration := endTime - startTime in
            setFlashStats
              (Some (mkStats
                       (match deviceInfo ≫= FlashService.chip with
                        | Some (String c r) => String c r
                        | _ => "Unknown"
                        end)
                       (baudRate settings)
                       (FlashService.size firmwareFile)
                       duration)) ui
        | (ui, inl err) =>
            let errorMessage := FlashService.getErrorMessage err in
            let ui := setFlashError (Some errorMessage) ui in
            setFlashSteps markActiveError ui
        end in
      setIsFlashing false ui
  end.

(** [handleFlash] with the [flash] of the service as a parameter: the
    handler as it runs against any service, also one whose run fails after
    some events. *)
Definition handleFlash_on
    (flash : (FlashService.FlashProgress → t → t) → FlashService.FlashOptions →
             t → t * (Js.Error + ()))
    (startTime endTime : Z) (ui : t) : t :=
  match firmwareFile ui with
  | None => ui
  | Some firmwareFile =>
      if negb (isConnected ui) then ui else
      let settings := advancedSettings ui in
      let deviceInfo := deviceInfo ui in
      let ui := setIsFlashing true ui in
      let ui := setFlashError None ui in
      let ui := setFlashCompleted false ui in
      let ui := setFlashProgress 0%float ui in
      let ui := setFlashLogs (λ _, []) ui in
      (* Reset steps *)
      let steps := steps settings in
      let ui := setFlashSteps (λ _, seed steps) ui in
      let options :=
        FlashService.mkOptions firmwareFile (baudRate settings) (offset settings)
          (eraseFlash settings) in
      let ui :=
        match flash (onProgress steps) options ui with
        | (ui, inr _) =>
            let ui := setFlashSteps markAllCompleted ui in
            let ui := setFlashCompleted true ui in
            let duration := endTime - startTime in
            setFlashStats
              (Some (mkStats
                       (match deviceInfo ≫= FlashService.chip with
                        | Some (String c r) => String c r
                        | _ => "Unknown"
                        end)
                       (baudRate settings)
                       (FlashService.size firmwareFile)
                       duration)) ui
        | (ui, inl err) =>
            let errorMessage := FlashService.getErrorMessage err in
            let ui := setFlashError (Some errorMessage) ui in
            setFlashSteps markActiveError ui
        end in
      setIsFlashing false ui
  end.

Definition handleReset (ui : t) : t :=
  let ui := setFlashCompleted false ui in
  let ui := setFlashError None ui in
  let ui := setFlashProgress 0%float ui in
  let ui := setFlashLogs (λ _, []) ui in
  let ui := setFlashStats None ui in
  setFlashSteps (fmap (λ step, mkStep (name step) pending)) ui.

End Index.

(** ** Derived notions used to state the properties *)

Module Views.
Import FlashService.

(** First percentage of the writing phase. *)
Definition writeStart (erase : bool) : float :=
  if erase then 30%float else 20%float.

(** The event of the [i]-th turn (from 0) of the writing loop. *)
Definition chunk_event (erase : bool) (total : Z) (i : Z) : FlashProgress :=
  let bytes := Z.min ((i + 1) * Js.Math_ceil_div total chunks) total in
  mkProgress (Some "Writing")
    (writeStart erase + ((85 - writeStart erase) * Js.of_Z (i + 1)) / Js.of_Z chunks)%float
    bytes total
    ("Writing: " +:+ formatBytes bytes +:+ "/" +:+ formatBytes total).

(** Events before the writing loop, and after it. *)
Definition head_events (erase : bool) (total : Z) : list FlashProgress :=
  [ mkProgress (Some "Connecting") 0%float 0 total "Establishing connection...";
    mkProgress (Some "Syncing") 10%float 0 total "Syncing with device..." ] ++
  (if erase
   then [ mkProgress (Some "Erasing") 20%float 0 total "Erasing flash memory..." ]
   else []) ++
  [ mkProgress (Some "Writing") (writeStart erase) 0 total "Writing firmware..." ].

Definition done_event (total : Z) : FlashProgress :=
  mkProgress (Some "Done") 100%float total total "Flash completed successfully!".

Definition tail_events (total : Z) : list FlashProgress :=
  [ mkProgress (Some "Verifying") 90%float total total "Verifying flash...";
    done_event total ].

Definition run_events (erase : bool) (total : Z) : list FlashProgress :=
  head_events erase total ++ (chunk_event erase total <$> seqZ 0 chunks) ++ tail_events total.

(** Calling a callback on a list of events, in order. *)
Definition feed {St : Type} (f : FlashProgress → St → St) (σ : St)
    (es : list FlashProgress) : St :=
  foldl (λ σ e, f e σ) σ es.

(** A sequence with every run of equal neighbours merged into one. *)
Fixpoint compress {A} `{EqDecision A} (l : list A) : list A :=
  match l with
  | [] => []
  | x :: r =>
      match r with
      | y :: _ => if decide (x = y) then compress r else x :: compress r
      | [] => [x]
      end
  end.

(** Differences of neighbours: [deltas [a; b; c] = [b - a; c - b]]. *)
Fixpoint deltas (l : list Z) : list Z :=
  match l with
  | x :: (y :: _) as r => (y - x) :: deltas r
  | _ => []
  end.

(** The events of the writing phase, and the number of bytes each turn
    of the loop adds to [bytesWritten]. *)
Definition writing_events (es : list FlashProgress) : list FlashProgress :=
  filter (λ e, step e = Some "Writing") es.

Definition chunk_sizes (es : list FlashProgress) : list Z :=
  deltas (bytesWritten <$> writing_events es).

(** The percentage of turn [i] on the straight line from the start of the
    writing phase to 85, as an exact rational. *)
Definition line_percent (erase : bool) (i : Z) : Q :=
  let start := if erase then 30%Q else 20%Q in
  (start + (85 - start) * inject_Z (i + 1) / 50)%Q.

Definition percent_tolerance : Q := (1 # 2 ^ 46)%Q.

Definition on_line (erase : bool) (i : Z) (x : float) : bool :=
  match Js.to_Q x with
  | Some q => Qle_bool (Qabs (q - line_percent erase i)) percent_tolerance
  | None => false
  end.

(** Order on percentages: [<=] of doubles. *)
Definition float_le (x y : float) : Prop := (x <=? y)%float = true.

Global Instance float_le_dec x y : Decision (float_le x y).
Proof. unfold float_le. apply _. Defined.

(** The percentages of a run, in emission order. *)
Definition percents (erase : bool) : list float :=
  [0%float; 10%float] ++ (if erase then [20%float] else []) ++ [writeStart erase] ++
  ((λ i, writeStart erase + ((85 - writeStart erase) * Js.of_Z (i + 1)) / Js.of_Z chunks)%float
     <$> seqZ 0 chunks) ++
  [90%float; 100%float].

(** The number of completed turns of the writing loop at each event of a
    run: none up to the first writing event, all fifty at the end. *)
Definition turns (erase : bool) : list Z :=
  replicate (if erase then 4 else 3) 0 ++ seqZ 1 chunks ++ [chunks; chunks].

(** [bytesWritten] after [k] turns. *)
Definition bytes_after (total : Z) (k : Z) : Z :=
  Z.min (k * Js.Math_ceil_div total chunks) total.

(** Statuses when phase [x] of the plan is current, as [cur]: completed
    before it, pending after it. *)
Definition shape (cur : Index.FlashStepStatus) (x : nat) (plan : list string)
  : list Index.FlashStep :=
  imap (λ i name,
    Index.mkStep name
      (if (i <? x)%nat then Index.completed
       else if (i =? x)%nat then cur else Index.pending)) plan.

(** The reconciler's statuses after the events [es] of a run over [plan]. *)
Definition reconciled (plan : list string) (es : list FlashProgress)
  : list Index.FlashStep :=
  foldl (λ st e, Index.reconcile plan e st) (Index.seed plan) es.

End Views.

(** ** The option invariants, as the specification words them *)

Module Spec.
Import FlashService.

Definition max_firmware_size : N := 16 * 1024 * 1024.

Definition is_hex_digit (c : ascii) : bool :=
  let n := nat_of_ascii c in
  ((48 <=? n) && (n <=? 57) || (65 <=? n) && (n <=? 70) || (97 <=? n) && (n <=? 102))%nat.

Fixpoint all_hex (s : string) : bool :=
  match s with
  | EmptyString => true
  | String c r => is_hex_digit c && all_hex r
  end.

(** A non-negative hexadecimal integer: digits, after an optional [0x]. *)
Definition parses_as_hex (s : string) : bool :=
  let digits :=
    match s with
    | String "0" (String "x" r) | String "0" (String "X" r) => r
    | _ => s
    end in
  match digits with
  | EmptyString => false
  | _ => all_hex digits
  end.

(** Firmware non-empty and at most 16 MiB, baud rate positive, offset a
    non-negative hexadecimal integer. *)
Definition valid_options (o : FlashOptions) : bool :=
  (0 <? size (file o))%N && (size (file o) <=? max_firmware_size)%N &&
  (0 <? baudRate o) && parses_as_hex (offset o).

End Spec.

(** ** Concrete sessions and options *)

Module Scenario.
Import FlashService.

Definition portA : SerialPort := mkPort 1 (Some "ea60").
Definition portB : SerialPort := mkPort 2 None.

(** The user picks port [p] and the port opens. *)
Definition pick (p : SerialPort) : ConnectEnv :=
  mkEnv (inr p) None 0.5%float "0.a3f1c2d4e5f6".

(** The user picks port [p] and the open is rejected. *)
Definition pick_unopenable (p : SerialPort) : ConnectEnv :=
  mkEnv (inr p) (Some (Js.mkError "NetworkError" "Failed to open serial port."))
    0.5%float "0.a3f1c2d4e5f6".

(** The user dismisses the port chooser. *)
Definition cancel : ConnectEnv :=
  mkEnv (inl (Js.mkError "NotFoundError" "No port selected by the user."))
    None 0.5%float "0.a3f1c2d4e5f6".

Definition connected : t := (connect (pick portA) init).1.

(** Options that break the option invariants: an empty firmware, a
    firmware of 16 MiB and one byte, a baud rate of 0, an offset that is
    no hexadecimal number. *)
Definition invalid_options : list FlashOptions :=
  [ mkOptions (mkFile "firmware.bin" 0) 115200 "0x1000" true;
    mkOptions (mkFile "firmware.bin" (16 * 1024 * 1024 + 1)) 115200 "0x1000" true;
    mkOptions (mkFile "firmware.bin" 4096) 0 "0x1000" false;
    mkOptions (mkFile "firmware.bin" 4096) 115200 "flash" true ].

Definition firmware (n : N) : File := mkFile "firmware.bin" n.

Definition options4096 : FlashOptions :=
  mkOptions (firmware 4096) 115200 "0x1000" true.

Definition ui4096 : Index.t :=
  Index.mk true (Some (mkDeviceInfo (Some "ESP32") "USB" None))
    (Some (firmware 4096)) (Index.mkSettings 115200 "0x1000" true)
    false 0%float [] Index.initialSteps None false None.

(** A service whose run is the run of [flash] on [connected] until it
    fails, after 14 events, in the writing phase. *)
Definition interrupted_flash {St : Type} (onProgress : FlashProgress → St → St)
    (options : FlashOptions) (σ : St) : St * (Js.Error + ()) :=
  (foldl (λ σ e, onProgress e σ) σ (take 14 (flash_events connected options4096)),
   inl (Js.new_Error "Flash failed: The device has been lost.")).

End Scenario.

(** ** The firmware card: [src/components/esp-flasher/FirmwareCard.tsx] *)

Module FirmwareCard.
Import FlashService.

(** [toLowerCase] on ASCII letters; the bytes of other characters are kept,
    which decides [endsWith('.bin')] as the full case mapping does. *)
Definition lower (c : ascii) : ascii :=
  let n := nat_of_ascii c in
  if (65 <=? n)%nat && (n <=? 90)%nat then ascii_of_nat (n + 32) else c.

Fixpoint toLowerCase (s : string) : string :=
  match s with
  | EmptyString => EmptyString
  | String c r => String (lower c) (toLowerCase r)
  end.

(** [s.endsWith(suffix)] *)
Definition endsWith (suffix s : string) : bool :=
  let n := String.length s in
  let m := String.length suffix in
  (m <=? n)%nat && String.eqb (String.substring (n - m) m s) suffix.

(** [file.name.toLowerCase().endsWith('.bin')] *)
Definition is_bin (f : File) : bool := endsWith ".bin" (toLowerCase (file_name f)).

(** The state of the card. *)
Record t := mk {
  isDragOver : bool;
  error : option string
}.

(** [handleDrop], on the files of the drop; the second component is the
    file handed to [onFileSelect], if any. *)
Definition handleDrop (files : list File) (card : t) : t * option File :=
  let card := mk false (error card) in
  let card := mk (isDragOver card) None in
  match List.find is_bin files with
  | None => (mk (isDragOver card) (Some "Please drop a .bin firmware file"), None)
  | Some binFile =>
      if (16 * 1024 * 1024 <? size binFile)%N
      then (mk (isDragOver card) (Some "File too large. Maximum size is 16MB"), None)
      else (card, Some binFile)
  end.

(** [handleFileInput], on [e.target.files?.[0]]. *)
Definition handleFileInput (file : option File) (card : t) : t * option File :=
  match file with
  | None => (card, None)
  | Some file =>
      let card := mk (isDragOver card) None in
      if negb (is_bin file)
      then (mk (isDragOver card) (Some "Please select a .bin firmware file"), None)
      else (card, Some file)
  end.

Definition formatFileSize (bytes : Z) : string :=
  if bytes <? 1024 then pretty bytes +:+ " B"
  else if bytes <? 1024 * 1024 then Js.toFixed1_div bytes 1024 +:+ " KB"
  else Js.toFixed1_div bytes (1024 * 1024) +:+ " MB".

End FirmwareCard.

(** ** The flash card: [src/components/esp-flasher/FlashCard.tsx] *)

Module FlashCard.

Definition formatDuration (ms : Z) : string :=
  let seconds := ms / 1000 in
  pretty seconds +:+ "s".

Definition formatFileSize (bytes : Z) : string :=
  if bytes <? 1024 * 1024 then Js.toFixed1_div bytes 1024 +:+ " KB"
  else Js.toFixed1_div bytes (1024 * 1024) +:+ " MB".

(** The action button: "Flash Again" calls [onReset], "Flash Firmware"
    calls [onFlash] unless it is disabled. *)
Inductive Button := FlashAgain | FlashFirmware (disabled : bool).

Definition actionButton (canFlash isFlashing : bool) (error : option string)
    (completed : bool) : Button :=
  if completed || (match error with Some (String _ _) => true | _ => false end)
  then FlashAgain
  else FlashFirmware (negb canFlash || isFlashing).

End FlashCard.

(** ** The page as a whole: service, component state and handlers *)

Module Page.
Import FlashService.

(** The service object held by the page, the state of [Index] (in two
    parts: the cells the flash handler uses, and those only the connect
    handler uses) and the state of the firmware card. *)
Record t := mk {
  flashService : FlashService.t;
  ui : Index.t;
  connecting : bool;
  deviceError : option string;
  card : FirmwareCard.t
}.

Definition initial : t :=
  mk FlashService.init
     (Index.mk false None None (Index.mkSettings 115200 "0x1000" true)
        false 0%float [] Index.initialSteps None false None)
     false None (FirmwareCard.mk false None).

Definition setDeviceInfo (v : option DeviceInfo) (ui : Index.t) : Index.t :=
  Index.mk (Index.isConnected ui) v (Index.firmwareFile ui) (Index.advancedSettings ui)
    (Index.isFlashing ui) (Index.flashProgress ui) (Index.flashLogs ui) (Index.flashSteps ui)
    (Index.flashError ui) (Index.flashCompleted ui) (Index.flashStats ui).
Definition setIsConnected (v : bool) (ui : Index.t) : Index.t :=
  Index.mk v (Index.deviceInfo ui) (Index.firmwareFile ui) (Index.advancedSettings ui)
    (Index.isFlashing ui) (Index.flashProgress ui) (Index.flashLogs ui) (Index.flashSteps ui)
    (Index.flashError ui) (Index.flashCompleted ui) (Index.flashStats ui).
Definition setFirmwareFile (v : option File) (ui : Index.t) : Index.t :=
  Index.mk (Index.isConnected ui) (Index.deviceInfo ui) v (Index.advancedSettings ui)
    (Index.isFlashing ui) (Index.flashProgress ui) (Index.flashLogs ui) (Index.flashSteps ui)
    (Index.flashError ui) (Index.flashCompleted ui) (Index.flashStats ui).
Definition setAdvancedSettings (v : Index.AdvancedSettings) (ui : Index.t) : Index.t :=
  Index.mk (Index.isConnected ui) (Index.deviceInfo ui) (Index.firmwareFile ui) v
    (Index.isFlashing ui) (Index.flashProgress ui) (Index.flashLogs ui) (Index.flashSteps ui)
    (Index.flashError ui) (Index.flashCompleted ui) (Index.flashStats ui).

(** A template hole [${x}] for a string that may be undefined. *)
Definition show (x : option string) : string := default "undefined" x.

(** [handleConnect] *)
Definition handleConnect (env : ConnectEnv) (pg : t) : t :=
  let pg := mk (flashService pg) (ui pg) true (deviceError pg) (card pg) in
  let pg := mk (flashService pg) (ui pg) (connecting pg) None (card pg) in
  let pg :=
    match connect env (flashService pg) with
    | (service, inr info) =>
        let ui := setDeviceInfo (Some info) (ui pg) in
        let ui := setIsConnected true ui in
        let ui :=
          Index.setFlashLogs
            (λ prev, prev ++ ["Connected to " +:+ show (chip info) +:+ " at " +:+ port_label info])
            ui in
        mk service ui (connecting pg) (deviceError pg) (card pg)
    | (service, inl err) =>
        let errorMessage := getErrorMessage err in
        let suggestion := getErrorSuggestion err in
        mk service (ui pg) (connecting pg) (Some (errorMessage +:+ " " +:+ suggestion)) (card pg)
    end in
  mk (flashService pg) (ui pg) false (deviceError pg) (card pg).

(** [canFlash] *)
Definition canFlash (ui : Index.t) : bool :=
  Index.isConnected ui && bool_decide (is_Some (Index.firmwareFile ui)) && negb (Index.isFlashing ui).

(** What the user can do between two handler runs. *)
Inductive Action :=
| ClickConnect (env : ConnectEnv)                 (* "Connect" or "Reconnect" *)
| DropFiles (files : list File)                   (* a drop on the firmware card *)
| ChooseFile (file : option File)                 (* the file chooser *)
| ChangeSettings (settings : Index.AdvancedSettings)
| ClickFlash (startTime endTime : Z).             (* the button of the flash card *)

Definition select (r : FirmwareCard.t * option File) (pg : t) : t :=
  mk (flashService pg)
     (match r.2 with Some f => setFirmwareFile (Some f) (ui pg) | None => ui pg end)
     (connecting pg) (deviceError pg) r.1.

(** One action, its handler run to completion. *)
Definition step (pg : t) (a : Action) : t :=
  match a with
  | ClickConnect env => if connecting pg then pg else handleConnect env pg
  | DropFiles files => select (FirmwareCard.handleDrop files (card pg)) pg
  | ChooseFile file =>
      if Index.isFlashing (ui pg) then pg
      else select (FirmwareCard.handleFileInput file (card pg)) pg
  | ChangeSettings settings =>
      if Index.isFlashing (ui pg) then pg
      else mk (flashService pg) (setAdvancedSettings settings (ui pg))
             (connecting pg) (deviceError pg) (card pg)
  | ClickFlash startTime endTime =>
      match FlashCard.actionButton (canFlash (ui pg)) (Index.isFlashing (ui pg))
              (Index.flashError (ui pg)) (Index.flashCompleted (ui pg)) with
      | FlashCard.FlashAgain =>
          mk (flashService pg) (Index.handleReset (ui pg))
             (connecting pg) (deviceError pg) (card pg)
      | FlashCard.FlashFirmware true => pg
      | FlashCard.FlashFirmware false =>
          mk (flashService pg) (Index.handleFlash (flashService pg) startTime endTime (ui pg))
             (connecting pg) (deviceError pg) (card pg)
      end
  end.

Definition run (pg : t) (actions : list Action) : t := foldl step pg actions.

(** Between two handler runs: nothing is in progress, no flash error is
    shown, a page that shows "connected" has a service that holds a port,
    and the firmware file, if any, has a ".bin" name. *)
Definition settled (pg : t) : Prop :=
  connecting pg = false ∧
  Index.isFlashing (ui pg) = false ∧
  Index.flashError (ui pg) = None ∧
  (Index.isConnected (ui pg) = true → is_Some (port (flashService pg))) ∧
  (∀ f, Index.firmwareFile (ui pg) = Some f → FirmwareCard.is_bin f = true).

End Page.

(** ** The event stream of [flash] in closed form *)

Module FlashFacts.
Import FlashService Views.

Section callback.
Context {St : Type} (f : FlashProgress → St → St).

Lemma feed_app σ es1 es2 : feed f σ (es1 ++ es2) = feed f (feed f σ es1) es2.
Proof. apply foldl_app. Qed.

Lemma write_loop options total (ks : list Z) (σ : St) :
  foldl (write_chunk f (steps options) (if eraseFlash options then 3 else 2)%nat total
           (Js.Math_ceil_div total chunks) (writeStart (eraseFlash options)) 85%float) σ ks
  = feed f σ (chunk_event (eraseFlash options) total <$> ks).
Proof.
  revert σ; induction ks as [|i ks IH]; intros σ; [done|].
  cbn [foldl fmap list_fmap feed]. rewrite IH. f_equal.
  unfold steps. destruct (eraseFlash options); reflexivity.
Qed.

(** A run on a session that holds a port feeds the callback the events
    of [run_events], in order, and then succeeds. *)
Lemma flash_connected self options p (σ : St) :
  port self = Some p →
  flash f self options σ
  = (feed f σ (run_events (eraseFlash options) (Z.of_N (size (file options)))), inr ()).
Proof.
  intros Hp. unfold flash, run_events. rewrite Hp.
  pose proof (write_loop options (Z.of_N (size (file options))) (seqZ 0 chunks)) as Hloop.
  unfold steps in *.
  destruct (eraseFlash options); cbn [lookup list_lookup app] in *;
    rewrite Hloop, !feed_app; reflexivity.
Qed.

Lemma flash_disconnected self options (σ : St) :
  port self = None →
  flash f self options σ = (σ, inl (Js.new_Error "No device connected")).
Proof. intros Hp. unfold flash. by rewrite Hp. Qed.
End callback.

Lemma feed_record log es : feed record_event log es = log ++ es.
Proof.
  revert log; induction es as [|e es IH]; intros log; cbn.
  - by rewrite app_nil_r.
  - unfold feed in IH. rewrite IH. unfold record_event. by rewrite <- app_assoc.
Qed.

Lemma flash_events_connected self options p :
  port self = Some p →
  flash_events self options
  = run_events (eraseFlash options) (Z.of_N (size (file options))).
Proof.
  intros Hp. unfold flash_events. rewrite (flash_connected _ _ _ p) by done.
  cbn. apply feed_record.
Qed.

Lemma flash_result_connected self options p :
  port self = Some p → flash_result self options = inr ().
Proof.
  intros Hp. unfold flash_result. by rewrite (flash_connected _ _ _ p).
Qed.

Lemma flash_events_disconnected self options :
  port self = None → flash_events self options = [].
Proof. intros Hp. unfold flash_events. by rewrite flash_disconnected. Qed.

Lemma flash_result_disconnected self options :
  port self = None →
  flash_result self options = inl (Js.new_Error "No device connected").
Proof. intros Hp. unfold flash_result. by rewrite flash_disconnected. Qed.

(** The callback is called on the events of the run, in order: running
    with any callback is feeding it the recorded stream. *)
Lemma flash_feeds {St} (f : FlashProgress → St → St) self options σ :
  flash f self options σ
  = (feed f σ (flash_events self options), flash_result self options).
Proof.
  destruct (port self) as [p|] eqn:Hp.
  - by rewrite (flash_connected _ _ _ p), (flash_events_connected _ _ p),
      (flash_result_connected _ _ p).
  - by rewrite flash_disconnected, flash_events_disconnected,
      flash_result_disconnected.
Qed.

(** *** Projections of the stream *)

Lemma chunk_steps erase total ks :
  step <$> (chunk_event erase total <$> ks) = replicate (length ks) (Some "Writing").
Proof. induction ks as [|k ks IH]; cbn; [done|]. by f_equal. Qed.

Lemma length_seqZ_chunks : length (seqZ 0 chunks) = 50%nat.
Proof. by rewrite length_seqZ. Qed.

Lemma run_steps erase total :
  step <$> run_events erase total
  = [Some "Connecting"; Some "Syncing"] ++ (if erase then [Some "Erasing"] else []) ++
    replicate 51 (Some "Writing") ++ [Some "Verifying"; Some "Done"].
Proof.
  unfold run_events. rewrite !fmap_app, chunk_steps, length_seqZ_chunks.
  by destruct erase.
Qed.

Lemma run_totals erase total :
  Forall (λ e, totalBytes e = total) (run_events erase total).
Proof.
  unfold run_events. rewrite !Forall_app. split_and!.
  - destruct erase; repeat constructor.
  - apply Forall_fmap, Forall_true. done.
  - repeat constructor.
Qed.

Lemma length_run_events erase total :
  length (run_events erase total) = (if erase then 56 else 55)%nat.
Proof.
  unfold run_events. rewrite !length_app, length_fmap, length_seqZ_chunks.
  by destruct erase.
Qed.

(** *** Percentages *)

Lemma run_percents erase total :
  progress <$> run_events erase total = percents erase.
Proof.
  unfold run_events, percents, head_events. rewrite !fmap_app, <- list_fmap_compose.
  by destruct erase.
Qed.

Lemma percents_sorted erase : StronglySorted float_le (percents erase).
Proof. destruct erase; apply (bool_decide_unpack _); by vm_compute. Qed.

Lemma percents_bounded erase :
  Forall (λ x, float_le 0 x ∧ float_le x 100) (percents erase).
Proof. destruct erase; apply (bool_decide_unpack _); by vm_compute. Qed.

Lemma chunk_percents_on_line erase :
  Forall (λ i, on_line erase i (progress (chunk_event erase 0 i)) = true) (seqZ 0 chunks).
Proof. destruct erase; apply (bool_decide_unpack _); by vm_compute. Qed.

(** *** Byte counts *)

Lemma ceil_div_chunks total :
  chunks * (Js.Math_ceil_div total chunks - 1) < total ≤ chunks * Js.Math_ceil_div total chunks.
Proof. unfold Js.Math_ceil_div, chunks. Z.div_mod_to_equations. lia. Qed.

Lemma bytes_after_0 total : 0 ≤ total → bytes_after total 0 = 0.
Proof. unfold bytes_after. lia. Qed.

Lemma bytes_after_all total : bytes_after total chunks = total.
Proof. unfold bytes_after. pose proof (ceil_div_chunks total). lia. Qed.

Lemma bytes_after_mono total j k :
  0 ≤ total → j ≤ k → bytes_after total j ≤ bytes_after total k.
Proof.
  intros Ht Hjk. unfold bytes_after. pose proof (ceil_div_chunks total).
  assert (j * Js.Math_ceil_div total chunks ≤ k * Js.Math_ceil_div total chunks)
    by (apply Z.mul_le_mono_nonneg_r; unfold chunks in *; lia).
  lia.
Qed.

Lemma bytes_after_step total k :
  0 ≤ total → 0 ≤ k →
  0 ≤ bytes_after total (k + 1) - bytes_after total k ≤ Js.Math_ceil_div total chunks.
Proof.
  intros Ht Hk. unfold bytes_after. pose proof (ceil_div_chunks total).
  rewrite Z.mul_add_distr_r, Z.mul_1_l.
  assert (0 ≤ k * Js.Math_ceil_div total chunks)
    by (apply Z.mul_nonneg_nonneg; unfold chunks in *; lia).
  unfold chunks in *. lia.
Qed.

Lemma chunk_bytes erase total i :
  bytesWritten (chunk_event erase total i) = bytes_after total (i + 1).
Proof. reflexivity. Qed.

Lemma turns_sorted erase : StronglySorted Z.le (turns erase).
Proof. destruct erase; apply (bool_decide_unpack _); by vm_compute. Qed.

Lemma turns_bounded erase : Forall (λ k, 0 ≤ k ≤ chunks) (turns erase).
Proof. destruct erase; apply (bool_decide_unpack _); by vm_compute. Qed.

Lemma run_bytes erase total :
  0 ≤ total →
  bytesWritten <$> run_events erase total = bytes_after total <$> turns erase.
Proof.
  intros Ht. unfold run_events, turns, head_events, tail_events, done_event.
  rewrite !fmap_app, <- list_fmap_compose.
  replace (seqZ 1 chunks) with (Z.add 1 <$> seqZ 0 chunks) by (by rewrite fmap_add_seqZ).
  rewrite <- list_fmap_compose.
  refine (f_equal2 app _ (f_equal2 app _ _)).
  - destruct erase; cbn; by rewrite bytes_after_0.
  - apply list_fmap_ext. intros _ i _. cbn. by rewrite Z.add_comm.
  - cbn. by rewrite bytes_after_all.
Qed.

(** *** The writing phase *)

Lemma writing_chunks erase total ks :
  writing_events (chunk_event erase total <$> ks) = chunk_event erase total <$> ks.
Proof.
  unfold writing_events. induction ks as [|k ks IH]; [done|].
  cbn [fmap list_fmap]. rewrite filter_cons_True by done. f_equal. apply IH.
Qed.

Lemma run_writing erase total :
  writing_events (run_events erase total)
  = mkProgress (Some "Writing") (writeStart erase) 0 total "Writing firmware..."
    :: (chunk_event erase total <$> seqZ 0 chunks).
Proof.
  unfold run_events, head_events, tail_events, done_event.
  unfold writing_events at 1. rewrite !filter_app. fold (writing_events).
  rewrite writing_chunks.
  destruct erase; cbn [app];
    rewrite ?filter_cons_False, ?filter_cons_True, ?filter_nil by (cbn; congruence);
    cbn [app]; by rewrite app_nil_r.
Qed.

Lemma deltas_seqZ (g : Z → Z) m (n : nat) :
  deltas (g <$> seqZ m (Z.of_nat n + 1))
  = (λ i, g (i + 1) - g i) <$> seqZ m (Z.of_nat n).
Proof.
  revert m; induction n as [|n IH]; intros m.
  - reflexivity.
  - rewrite (seqZ_cons m (Z.of_nat (S n) + 1)) by lia.
    rewrite (seqZ_cons m (Z.of_nat (S n))) by lia.
    replace (Z.pred (Z.of_nat (S n) + 1)) with (Z.of_nat n + 1) by lia.
    replace (Z.pred (Z.of_nat (S n))) with (Z.of_nat n) by lia.
    specialize (IH (Z.succ m)).
    rewrite (seqZ_cons (Z.succ m) (Z.of_nat n + 1)) in * by lia.
    cbn [fmap list_fmap deltas] in *. rewrite IH.
    by replace (m + 1) with (Z.succ m) by lia.
Qed.

Lemma run_chunk_sizes erase total :
  0 ≤ total →
  chunk_sizes (run_events erase total)
  = (λ i, bytes_after total (i + 1) - bytes_after total i) <$> seqZ 0 chunks.
Proof.
  intros Ht. unfold chunk_sizes. rewrite run_writing.
  change (seqZ 0 chunks) with (seqZ 0 (Z.of_nat 50)) at 2.
  rewrite <- (deltas_seqZ (bytes_after total) 0 50).
  change (Z.of_nat 50 + 1) with 51. rewrite (seqZ_cons 0 51) by lia.
  cbn [fmap list_fmap bytesWritten]. rewrite bytes_after_0 by done.
  apply (f_equal deltas), (f_equal (cons 0)). rewrite <- list_fmap_compose.
  replace (seqZ (Z.succ 0) (Z.pred 51)) with (Z.add 1 <$> seqZ 0 chunks)
    by (by rewrite fmap_add_seqZ).
  rewrite <- list_fmap_compose.
  apply list_fmap_ext. intros _ i _. cbn. by rewrite Z.add_comm.
Qed.

Lemma fmap_const_replicate {A B} (f : A → B) (c : B) (l : list A) :
  Forall (λ x, f x = c) l → f <$> l = replicate (length l) c.
Proof. induction 1 as [|x l Hx _ IH]; cbn; [done|]. by rewrite Hx, IH. Qed.

Lemma full_chunks total :
  0 ≤ total → 49 * Js.Math_ceil_div total chunks ≤ total →
  (λ i, bytes_after total (i + 1) - bytes_after total i) <$> seqZ 0 chunks
  = replicate 49 (Js.Math_ceil_div total chunks)
    ++ [total - 49 * Js.Math_ceil_div total chunks].
Proof.
  intros Ht Hfull. pose proof (ceil_div_chunks total) as Hceil. unfold chunks in *.
  change (seqZ 0 50) with (seqZ 0 49 ++ [49]). rewrite fmap_app. f_equal.
  - rewrite (fmap_const_replicate _ (Js.Math_ceil_div total 50)); [done|].
    apply Forall_seqZ. intros i Hi. unfold bytes_after, chunks.
    rewrite Z.mul_add_distr_r, Z.mul_1_l.
    assert (i * Js.Math_ceil_div total 50 ≤ 48 * Js.Math_ceil_div total 50)
      by (apply Z.mul_le_mono_nonneg_r; lia).
    lia.
  - cbn. unfold bytes_after, chunks. do 2 f_equal; lia.
Qed.

Lemma large_firmware_full_chunks total :
  2352 ≤ total → 49 * Js.Math_ceil_div total chunks ≤ total.
Proof. unfold Js.Math_ceil_div, chunks. intros. Z.div_mod_to_equations. lia. Qed.

Lemma run_events_snoc erase total :
  run_events erase total
  = (head_events erase total ++ (chunk_event erase total <$> seqZ 0 chunks) ++
     [mkProgress (Some "Verifying") 90%float total total "Verifying flash..."])
    ++ [done_event total].
Proof. unfold run_events, tail_events. by rewrite <- !app_assoc. Qed.

Lemma before_done erase total :
  Forall (λ e, step e ≠ Some "Done")
    (head_events erase total ++ (chunk_event erase total <$> seqZ 0 chunks) ++
     [mkProgress (Some "Verifying") 90%float total total "Verifying flash..."]).
Proof.
  rewrite !Forall_app. split_and!.
  - destruct erase; repeat constructor; done.
  - apply Forall_fmap, Forall_true. done.
  - repeat constructor; done.
Qed.

End FlashFacts.

(** ** The page's fold of the event stream *)

Module IndexFacts.
Import FlashService Views FlashFacts.

Lemma feed_steps plan ui es :
  Index.flashSteps (feed (Index.onProgress plan) ui es)
  = foldl (λ st e, Index.reconcile plan e st) (Index.flashSteps ui) es.
Proof.
  revert ui; induction es as [|e es IH]; intros ui; [done|].
  cbn [feed foldl]. unfold feed in IH. by rewrite IH.
Qed.

(** The callback writes the progress, the log and the statuses only. *)
Lemma feed_frame plan ui es :
  Index.deviceInfo (feed (Index.onProgress plan) ui es) = Index.deviceInfo ui ∧
  Index.flashError (feed (Index.onProgress plan) ui es) = Index.flashError ui ∧
  Index.flashCompleted (feed (Index.onProgress plan) ui es) = Index.flashCompleted ui ∧
  Index.flashStats (feed (Index.onProgress plan) ui es) = Index.flashStats ui.
Proof.
  revert ui; induction es as [|e es IH]; intros ui; [done|].
  cbn [feed foldl]. unfold feed in IH.
  destruct (IH (Index.onProgress plan e ui)) as (-> & -> & -> & ->). done.
Qed.

Lemma feed_logs plan ui es :
  Index.flashLogs (feed (Index.onProgress plan) ui es)
  = Index.flashLogs ui ++ (message <$> es).
Proof.
  revert ui; induction es as [|e es IH]; intros ui; cbn [feed foldl].
  - by rewrite app_nil_r.
  - unfold feed in IH. rewrite IH. cbn. by rewrite <- app_assoc.
Qed.

(** The handler on a connected service: the run succeeds, the statuses
    are those the reconciler reached from the seed, all set to completed,
    and the statistics are recorded. *)
Lemma handleFlash_connected self p startTime endTime ui fw :
  port self = Some p →
  Index.firmwareFile ui = Some fw →
  Index.isConnected ui = true →
  let settings := Index.advancedSettings ui in
  let options := mkOptions fw (Index.baudRate settings) (Index.offset settings)
                   (Index.eraseFlash settings) in
  let ui' := Index.handleFlash self startTime endTime ui in
  Index.isFlashing ui' = false ∧
  Index.flashCompleted ui' = true ∧
  Index.flashError ui' = None ∧
  Index.flashSteps ui'
    = Index.markAllCompleted
        (reconciled (Index.steps settings) (flash_events self options)) ∧
  Index.flashLogs ui' = message <$> flash_events self options ∧
  Index.flashStats ui'
    = Some (Index.mkStats
              (match Index.deviceInfo ui ≫= chip with
               | Some (String c r) => String c r
               | _ => "Unknown"
               end)
              (Index.baudRate settings) (size fw) (endTime - startTime)).
Proof.
  intros Hp Hfw Hconn settings options ui'. subst ui'.
  unfold Index.handleFlash. rewrite Hfw, Hconn. cbn [negb].
  fold settings. fold options. rewrite flash_feeds.
  rewrite (flash_result_connected _ _ p) by done.
  cbn -[Index.steps Index.seed]. rewrite feed_steps, feed_logs.
  match goal with |- context [feed ?f ?u ?es] =>
    destruct (feed_frame (Index.steps settings) u es) as (_ & -> & _ & _) end.
  done.
Qed.

Lemma handleFlash_disconnected self startTime endTime ui fw :
  port self = None →
  Index.firmwareFile ui = Some fw →
  Index.isConnected ui = true →
  let ui' := Index.handleFlash self startTime endTime ui in
  Index.flashCompleted ui' = false ∧
  Index.flashError ui' = Some "No device connected" ∧
  Index.flashStats ui' = Index.flashStats ui ∧
  Index.flashSteps ui' = Index.seed (Index.steps (Index.advancedSettings ui)).
Proof.
  intros Hp Hfw Hconn ui'. subst ui'.
  unfold Index.handleFlash. rewrite Hfw, Hconn. cbn [negb].
  rewrite flash_disconnected by done. cbn -[Index.steps Index.seed].
  split_and!; try done.
  unfold Index.markActiveError, Index.seed. rewrite <- list_fmap_compose.
  by apply list_fmap_ext.
Qed.

End IndexFacts.

(** ** Device session: [connect] and [disconnect] *)

Module Session.
Import FlashService Scenario.

(** No path of [connect] closes a port. *)
Lemma connect_keeps_open_ports env self :
  open_ports self ⊆ open_ports (connect env self).1.
Proof.
  unfold connect, SerialPort_open.
  destruct (requestPort env) as [e|q]; cbn; [done|].
  destruct (decide _); cbn; [done|].
  destruct (open_fails env); cbn; set_solver.
Qed.

(** A dismissed or refused port chooser leaves the session as it was. *)
Lemma connect_without_port env self e :
  requestPort env = inl e →
  connect env self = (self, inl (connect_failed e)).
Proof. intros He. unfold connect. by rewrite He. Qed.

(** A successful [connect] on a session that holds an open port [p]
    replaces the handle and leaves [p] open. *)
Lemma reconnect_layers env self p q :
  port self = Some p → port_id p ∈ open_ports self →
  requestPort env = inr q → port_id q ∉ open_ports self → open_fails env = None →
  port (connect env self).1 = Some q ∧
  port_id p ∈ open_ports (connect env self).1 ∧
  port_id q ∈ open_ports (connect env self).1.
Proof.
  intros Hp Hin Hq Hnin Hok. unfold connect, SerialPort_open.
  rewrite Hq; cbn. rewrite decide_False by done. rewrite Hok; cbn.
  split_and!; [done|set_solver..].
Qed.

Lemma disconnect_closes self p :
  port self = Some p → port_id p ∈ open_ports self →
  port (disconnect self) = None ∧ port_id p ∉ open_ports (disconnect self).
Proof.
  intros Hp Hopen. unfold disconnect, disconnect_call, SerialPort_close.
  rewrite Hp, decide_True by done; cbn.
  split; [done|]. rewrite elem_of_difference, elem_of_singleton. tauto.
Qed.

(** On a handle whose port is not open, [close] rejects and the handle
    stays. *)
Lemma disconnect_keeps_unopened_handle self p :
  port self = Some p → port_id p ∉ open_ports self →
  disconnect self = self ∧
  disconnect_call self
  = (self, inl (Js.mkError "InvalidStateError" "The port is already closed.")).
Proof.
  intros Hp Hclosed. unfold disconnect, disconnect_call, SerialPort_close.
  rewrite Hp, decide_False by done; cbn. rewrite <- Hp. by destruct self.
Qed.

(** C1 (the code departs from the claim): a session connected to port 1
    connects again and the user picks port 2.  The claim wants port 1
    closed before port 2 is opened; [connect] only overwrites the handle,
    so both ports are open afterwards and port 1, no longer referenced,
    cannot be closed by [disconnect] either. *)
Theorem reconnect_leaves_prior_port_open :
  port connected = Some portA ∧ open_ports connected = {[ 1%nat ]} ∧
  port (connect (pick portB) connected).1 = Some portB ∧
  open_ports (connect (pick portB) connected).1 = {[ 1%nat; 2%nat ]} ∧
  base.size (open_ports (connect (pick portB) connected).1) = 2%nat ∧
  open_ports (disconnect (connect (pick portB) connected).1) = {[ 1%nat ]}.
Proof. vm_compute. done. Qed.

(** C2 (the code departs from the claim): on a disconnected session the
    user picks a port whose [open] is rejected.  [connect] throws, yet the
    handle assigned before the [open] stays in [port]: the session is not
    as if [connect] had never been called, and a later [flash] passes its
    "No device connected" guard on a port that was never opened. *)
Theorem failed_open_retains_port :
  port init = None ∧
  (connect (pick_unopenable portA) init).2
    = inl (Js.new_Error "Failed to connect: Failed to open serial port.") ∧
  port (connect (pick_unopenable portA) init).1 = Some portA ∧
  open_ports (connect (pick_unopenable portA) init).1 = ∅ ∧
  flash_result (connect (pick_unopenable portA) init).1 options4096 = inr () ∧
  length (flash_events (connect (pick_unopenable portA) init).1 options4096) = 56%nat.
Proof.
  split_and!; [done|by vm_compute|by vm_compute|by vm_compute|..].
  - apply (FlashFacts.flash_result_connected _ _ portA). by vm_compute.
  - rewrite (FlashFacts.flash_events_connected _ _ portA) by (by vm_compute).
    apply FlashFacts.length_run_events.
Qed.

End Session.

(** ** Flash orchestrator: [flash] *)

Module Orchestrator.
Import FlashService Views FlashFacts Scenario.

(** C3, counterexample: on a connected session [flash] runs to the end,
    emitting every event, with options that break each of the option
    invariants; it never fails with an invalid-options error.  And on the
    session left by a [connect] whose [open] was rejected, which is not
    connected (no port is open), [flash] with valid options does not fail
    with "No device connected" either: it runs to the end. *)
Lemma flash_runs_with_invalid_options :
  (port connected ≠ None ∧
   Forall (λ o, Spec.valid_options o = false ∧
                flash_result connected o = inr () ∧
                flash_events connected o ≠ []) invalid_options) ∧
  ((connect (pick_unopenable portA) init).2
     = inl (Js.new_Error "Failed to connect: Failed to open serial port.") ∧
   open_ports (connect (pick_unopenable portA) init).1 = ∅ ∧
   Spec.valid_options options4096 = true ∧
   flash_result (connect (pick_unopenable portA) init).1 options4096 = inr () ∧
   length (flash_events (connect (pick_unopenable portA) init).1 options4096) = 56%nat).
Proof.
  split.
  - split; [by vm_compute|].
    repeat constructor; try (by vm_compute);
      rewrite (flash_events_connected _ _ portA) by (by vm_compute);
      intros E; apply (f_equal length) in E; rewrite length_run_events in E;
      by destruct (eraseFlash _).
  - split_and!; [by vm_compute..| |].
    + apply (flash_result_connected _ _ portA). by vm_compute.
    + rewrite (flash_events_connected _ _ portA) by (by vm_compute).
      apply length_run_events.
Qed.

(** C3, as amended: on a session that holds no port handle, [flash] fails
    at once with "No device connected": the callback is not called and the
    consumer's state is returned untouched.  The options are not validated:
    on a connected session (the held port is open), the run emits its whole
    stream and succeeds whatever the options are. *)
Theorem flash_guard {St} (f : FlashProgress → St → St) self options σ :
  (port self = None →
     flash f self options σ = (σ, inl (Js.new_Error "No device connected")) ∧
     flash_events self options = []) ∧
  (∀ p, port self = Some p → port_id p ∈ open_ports self →
     flash_result self options = inr () ∧
     length (flash_events self options) = (if eraseFlash options then 56 else 55)%nat).
Proof.
  split.
  - intros Hp. by rewrite flash_disconnected, flash_events_disconnected.
  - intros p Hp _.
    rewrite (flash_result_connected _ _ p), (flash_events_connected _ _ p) by done.
    by rewrite length_run_events.
Qed.

Lemma flash_guard_witness :
  (flash record_event init options4096 [] = ([], inl (Js.new_Error "No device connected")) ∧
   flash_events init options4096 = []) ∧
  (flash_result connected options4096 = inr () ∧
   length (flash_events connected options4096) = 56%nat).
Proof.
  split.
  - apply (proj1 (flash_guard record_event init options4096 [])). reflexivity.
  - apply (proj2 (flash_guard record_event connected options4096 []) portA).
    + vm_compute. reflexivity.
    + vm_compute. reflexivity.
Defined.

Lemma steps_NoDup options : NoDup (steps options).
Proof. unfold steps. destruct (eraseFlash options); by apply (bool_decide_unpack _). Qed.

(** C4: on a connected session the phase names of the emitted events,
    with each run of repeats merged, are exactly the plan [steps]: the
    phases come in plan order, none is skipped, and since the plan has
    no duplicates none comes back after a later one has started. *)
Theorem phases_follow_plan self options p :
  port self = Some p →
  compress (step <$> flash_events self options) = Some <$> steps options ∧
  NoDup (steps options).
Proof.
  intros Hp. split; [|apply steps_NoDup].
  rewrite (flash_events_connected _ _ p), run_steps by done.
  unfold steps. by destruct (eraseFlash options).
Qed.

Lemma phases_follow_plan_witness :
  compress (step <$> flash_events connected options4096) = Some <$> steps options4096 ∧
  NoDup (steps options4096).
Proof. apply (phases_follow_plan connected options4096 portA). vm_compute. reflexivity. Defined.

(** C10: two option records with the same firmware size and the same
    erase flag drive any callback through the same calls and end in the
    same result, whatever their baud rates and offsets are. *)
Theorem flash_ignores_baud_and_offset {St} (f : FlashProgress → St → St)
    self o1 o2 σ :
  size (file o1) = size (file o2) →
  eraseFlash o1 = eraseFlash o2 →
  flash f self o1 σ = flash f self o2 σ ∧
  flash_events self o1 = flash_events self o2 ∧
  flash_result self o1 = flash_result self o2.
Proof.
  intros Hsize Herase.
  assert (∀ St' (g : FlashProgress → St' → St') τ, flash g self o1 τ = flash g self o2 τ)
    as Heq.
  { intros St' g τ. destruct (port self) as [p|] eqn:Hp.
    - rewrite !(flash_connected _ _ _ p) by done. by rewrite Hsize, Herase.
    - by rewrite !flash_disconnected. }
  split_and!; [apply Heq|unfold flash_events|unfold flash_result]; by rewrite Heq.
Qed.

Lemma flash_ignores_baud_and_offset_witness :
  flash record_event connected options4096 []
  = flash record_event connected (mkOptions (firmware 4096) 9600 "0x0" true) [] ∧
  flash_events connected options4096
  = flash_events connected (mkOptions (firmware 4096) 9600 "0x0" true) ∧
  flash_result connected options4096
  = flash_result connected (mkOptions (firmware 4096) 9600 "0x0" true).
Proof.
  apply (flash_ignores_baud_and_offset record_event connected options4096
           (mkOptions (firmware 4096) 9600 "0x0" true) []); reflexivity.
Defined.

(** C5: over the events of a run on a connected session, in emission
    order, the percentage never decreases and stays within 0 and 100, the
    byte count never decreases and stays within 0 and [totalBytes], and
    [totalBytes] is the size of the firmware file in every event. *)
Theorem progress_monotone_bounded self options p :
  port self = Some p →
  StronglySorted float_le (progress <$> flash_events self options) ∧
  Forall (λ e, float_le 0 (progress e) ∧ float_le (progress e) 100)
    (flash_events self options) ∧
  StronglySorted Z.le (bytesWritten <$> flash_events self options) ∧
  Forall (λ e, 0 ≤ bytesWritten e ≤ totalBytes e) (flash_events self options) ∧
  Forall (λ e, totalBytes e = Z.of_N (size (file options))) (flash_events self options).
Proof.
  intros Hp. rewrite (flash_events_connected _ _ p) by done.
  set (erase := eraseFlash options). set (total := Z.of_N (size (file options))).
  assert (0 ≤ total) as Ht by (subst total; lia).
  assert (Forall (λ e, 0 ≤ bytesWritten e ≤ total) (run_events erase total)) as Hb.
  { apply (Forall_fmap bytesWritten (λ b, 0 ≤ b ≤ total)). rewrite run_bytes by done.
    apply Forall_fmap. eapply Forall_impl; [apply turns_bounded|].
    intros k [Hk0 Hk]; cbn.
    pose proof (bytes_after_mono total 0 k Ht Hk0) as Hlo.
    pose proof (bytes_after_mono total k chunks Ht Hk) as Hhi.
    rewrite bytes_after_0 in Hlo by done. rewrite bytes_after_all in Hhi. lia. }
  split_and!.
  - rewrite run_percents. apply percents_sorted.
  - apply (Forall_fmap progress (λ x, float_le 0 x ∧ float_le x 100)).
    rewrite run_percents. apply percents_bounded.
  - rewrite run_bytes by done.
    eapply StronglySorted_fmap; [|apply turns_sorted].
    intros j k Hjk. by apply bytes_after_mono.
  - pose proof (run_totals erase total) as Htot.
    rewrite Forall_forall in Hb, Htot. apply Forall_forall. intros e He.
    rewrite (Htot e He). by apply Hb.
  - apply run_totals.
Qed.

Lemma progress_monotone_bounded_witness :
  StronglySorted float_le (progress <$> flash_events connected options4096) ∧
  Forall (λ e, float_le 0 (progress e) ∧ float_le (progress e) 100)
    (flash_events connected options4096) ∧
  StronglySorted Z.le (bytesWritten <$> flash_events connected options4096) ∧
  Forall (λ e, 0 ≤ bytesWritten e ≤ totalBytes e) (flash_events connected options4096) ∧
  Forall (λ e, totalBytes e = 4096) (flash_events connected options4096).
Proof.
  apply (progress_monotone_bounded connected options4096 portA). vm_compute. reflexivity.
Defined.

(** C6, counterexample: a firmware of 120 bytes has chunk size 3; the
    first forty turns of the loop write 3 bytes each and the last ten write
    nothing.  The fifty chunks are not of equal size, and the truncation
    is not confined to the last one. *)
Lemma small_firmware_has_empty_chunks :
  Js.Math_ceil_div 120 chunks = 3 ∧
  chunk_sizes (flash_events connected (mkOptions (firmware 120) 115200 "0x1000" true))
  = replicate 40 3 ++ replicate 10 0.
Proof. by vm_compute. Qed.

(** C6, as amended: the writing phase of a run on a connected session is
    one event at the start percentage (30 with erase, 20 without) and 0
    bytes, followed by exactly fifty events, one per turn of the loop.
    With [c] the ceiling of [totalBytes / 50], turn [i] (from 0) reports
    [min ((i + 1) * c) totalBytes] bytes and a percentage on the line from
    the start percentage to 85, up to the rounding of doubles; the last
    turn reports [totalBytes] and exactly 85.  Every turn adds between 0
    and [c] bytes.  When [49 * c <= totalBytes], which holds from 2352
    bytes on, the first 49 turns add [c] bytes each and the last one the
    remainder. *)
Theorem writing_phase self options p :
  port self = Some p →
  let total := Z.of_N (size (file options)) in
  let c := Js.Math_ceil_div total chunks in
  chunks * (c - 1) < total ≤ chunks * c ∧
  (∃ first turn_events,
     writing_events (flash_events self options) = first :: turn_events ∧
     progress first = (if eraseFlash options then 30 else 20)%float ∧
     bytesWritten first = 0 ∧
     length turn_events = 50%nat ∧
     (∀ (i : nat) e, turn_events !! i = Some e →
        bytesWritten e = Z.min ((Z.of_nat i + 1) * c) total ∧
        on_line (eraseFlash options) (Z.of_nat i) (progress e) = true) ∧
     (∃ e, turn_events !! 49%nat = Some e ∧
           bytesWritten e = total ∧ progress e = 85%float)) ∧
  length (chunk_sizes (flash_events self options)) = 50%nat ∧
  Forall (λ d, 0 ≤ d ≤ c) (chunk_sizes (flash_events self options)) ∧
  (49 * c ≤ total →
     chunk_sizes (flash_events self options) = replicate 49 c ++ [total - 49 * c]) ∧
  (2352 ≤ total → 49 * c ≤ total).
Proof.
  intros Hp total c. rewrite (flash_events_connected _ _ p) by done.
  fold total. set (erase := eraseFlash options).
  assert (0 ≤ total) as Ht by (subst total; lia).
  rewrite run_chunk_sizes by done.
  split_and!.
  - apply ceil_div_chunks.
  - apply ceil_div_chunks.
  - eexists _, _. split; [apply run_writing|]. split_and!.
    + by destruct erase.
    + done.
    + by rewrite length_fmap, length_seqZ_chunks.
    + intros i e. rewrite list_lookup_fmap, fmap_Some.
      intros (k & Hk & ->). apply lookup_seqZ in Hk as [-> Hi].
      split; [by rewrite Z.add_0_l|].
      pose proof (chunk_percents_on_line erase) as Hline.
      rewrite Forall_seqZ in Hline. apply Hline. lia.
    + exists (chunk_event erase total 49). split_and!.
      * reflexivity.
      * rewrite chunk_bytes. apply bytes_after_all.
      * by destruct erase; vm_compute.
  - by rewrite length_fmap, length_seqZ_chunks.
  - apply Forall_fmap, Forall_seqZ. intros i Hi. cbn.
    apply bytes_after_step; [done|lia].
  - intros Hfull. by apply full_chunks.
  - apply large_firmware_full_chunks.
Qed.

Lemma writing_phase_witness :
  50 * (82 - 1) < 4096 ≤ 50 * 82 ∧
  (∃ first turn_events,
     writing_events (flash_events connected options4096) = first :: turn_events ∧
     progress first = 30%float ∧
     bytesWritten first = 0 ∧
     length turn_events = 50%nat ∧
     (∀ (i : nat) e, turn_events !! i = Some e →
        bytesWritten e = Z.min ((Z.of_nat i + 1) * 82) 4096 ∧
        on_line true (Z.of_nat i) (progress e) = true) ∧
     (∃ e, turn_events !! 49%nat = Some e ∧
           bytesWritten e = 4096 ∧ progress e = 85%float)) ∧
  length (chunk_sizes (flash_events connected options4096)) = 50%nat ∧
  Forall (λ d, 0 ≤ d ≤ 82) (chunk_sizes (flash_events connected options4096)) ∧
  (49 * 82 ≤ 4096 →
     chunk_sizes (flash_events connected options4096) = replicate 49 82 ++ [4096 - 49 * 82]) ∧
  (2352 ≤ 4096 → 49 * 82 ≤ 4096).
Proof.
  apply (writing_phase connected options4096 portA). vm_compute. reflexivity.
Defined.

(** C7: [flash] succeeds exactly when it has emitted a Done event; a
    successful run emits one Done event only, as its last event, at 100
    percent with [bytesWritten = totalBytes] and the message "Flash
    completed successfully!".  On a connected session, a firmware of 4096
    bytes at 115200 baud, offset 0x1000, with erase, ends its stream with
    Done, 100, 4096 of 4096, and the handler records a file size of 4096
    in the statistics of the completed flash. *)
Theorem done_event_ends_run self options :
  (flash_result self options = inr () ↔
     ∃ e, e ∈ flash_events self options ∧ step e = Some "Done") ∧
  (flash_result self options = inr () →
     ∃ before,
       flash_events self options
       = before ++ [mkProgress (Some "Done") 100%float
                      (Z.of_N (size (file options))) (Z.of_N (size (file options)))
                      "Flash completed successfully!"] ∧
       Forall (λ e, step e ≠ Some "Done") before) ∧
  (∀ p, port self = Some p →
     options = mkOptions (file options) 115200 "0x1000" true →
     size (file options) = 4096%N →
     last (flash_events self options)
     = Some (mkProgress (Some "Done") 100%float 4096 4096 "Flash completed successfully!") ∧
     ∀ ui startTime endTime,
       Index.isConnected ui = true →
       Index.firmwareFile ui = Some (file options) →
       Index.advancedSettings ui = Index.mkSettings 115200 "0x1000" true →
       Index.flashCompleted (Index.handleFlash self startTime endTime ui) = true ∧
       ∃ stats,
         Index.flashStats (Index.handleFlash self startTime endTime ui) = Some stats ∧
         Index.fileSize stats = 4096%N ∧
         Index.stats_baudRate stats = 115200).
Proof.
  destruct (port self) as [q|] eqn:Hq.
  - rewrite (flash_result_connected _ _ q), (flash_events_connected _ _ q) by done.
    rewrite run_events_snoc. split_and!.
    + split; [intros _|done].
      exists (done_event (Z.of_N (size (file options)))). split; [|reflexivity].
      apply elem_of_app. right. by apply list_elem_of_singleton.
    + intros _. eexists. split; [reflexivity|]. apply before_done.
    + intros p _ Hopt Hsize. rewrite Hsize. split; [apply last_snoc|].
      intros ui startTime endTime Hconn Hfw Hset.
      destruct (IndexFacts.handleFlash_connected self q startTime endTime ui
                  (file options) Hq Hfw Hconn) as (_ & Hdone & _ & _ & _ & Hstats).
      split; [done|]. eexists. split; [apply Hstats|]. rewrite Hset. by cbn.
  - rewrite flash_result_disconnected, flash_events_disconnected by done. split_and!.
    + split; [done|]. intros (e & He & _). by apply elem_of_nil in He.
    + done.
    + done.
Qed.

Lemma done_event_ends_run_witness :
  (∃ e, e ∈ flash_events connected options4096 ∧ step e = Some "Done") ∧
  (∃ before,
     flash_events connected options4096
     = before ++ [mkProgress (Some "Done") 100%float 4096 4096
                    "Flash completed successfully!"] ∧
     Forall (λ e, step e ≠ Some "Done") before) ∧
  last (flash_events connected options4096)
  = Some (mkProgress (Some "Done") 100%float 4096 4096 "Flash completed successfully!") ∧
  Index.flashCompleted (Index.handleFlash connected 1000 5350 ui4096) = true ∧
  ∃ stats,
    Index.flashStats (Index.handleFlash connected 1000 5350 ui4096) = Some stats ∧
    Index.fileSize stats = 4096%N ∧
    Index.stats_baudRate stats = 115200.
Proof.
  assert (flash_result connected options4096 = inr ()) as Hok by (vm_compute; reflexivity).
  destruct (done_event_ends_run connected options4096) as (Hiff & Hlast & Hscen).
  destruct (Hscen portA) as [Hl Hui]; [vm_compute; reflexivity|reflexivity|reflexivity|].
  split_and!.
  - apply Hiff, Hok.
  - apply Hlast, Hok.
  - apply Hl.
  - apply (Hui ui4096 1000 5350); reflexivity.
  - apply (Hui ui4096 1000 5350); reflexivity.
Defined.

End Orchestrator.

(** ** Step reconciler: the status updates of the flash handler *)

Module Reconciler.
Import Views Scenario.
Import Index.

Lemma indexOf_from_found k (l : list string) x X :
  NoDup l → l !! x = Some X → Js.indexOf_from k l (Some X) = k + Z.of_nat x.
Proof.
  intros Hnd; revert k x; induction Hnd as [|y l Hy _ IH]; intros k x Hx; [done|].
  destruct x as [|x]; cbn in *.
  - injection Hx as ->. rewrite bool_decide_eq_true_2 by done. lia.
  - rewrite bool_decide_eq_false_2.
    + rewrite (IH _ x) by done. lia.
    + intros [= ->]. apply Hy. by eapply list_elem_of_lookup_2.
Qed.

Lemma indexOf_from_absent k (l : list string) o :
  (∀ X, o = Some X → X ∉ l) → Js.indexOf_from k l o = -1.
Proof.
  revert k; induction l as [|y l IH]; intros k Habs; [done|]. cbn.
  rewrite bool_decide_eq_false_2.
  - apply IH. intros X HX Hin. apply (Habs X HX). by right.
  - intros Hy. apply (Habs y); [done|]. by left.
Qed.

Lemma page_steps_NoDup settings : NoDup (steps settings).
Proof. unfold steps. destruct (eraseFlash settings); by apply (bool_decide_unpack _). Qed.

(** The page and the service compute the same plan. *)
Lemma steps_agree fw settings :
  steps settings
  = FlashService.steps
      (FlashService.mkOptions fw (baudRate settings) (offset settings) (eraseFlash settings)).
Proof. reflexivity. Qed.

Lemma reconcile_names plan progress prev :
  name <$> reconcile plan progress prev = name <$> prev.
Proof.
  apply list_eq. intros i. unfold reconcile.
  rewrite !list_lookup_fmap, list_lookup_imap.
  destruct (prev !! i) as [s|]; [|done]. cbn.
  destruct (bool_decide _); [done|]. by destruct (_ <? _).
Qed.

(** C8: the handler seeds the statuses with every phase of the plan,
    pending.  On an event whose phase is at position [x] of the plan, the
    updater sets that phase to active and every phase before it to
    completed, and leaves every phase after it as it was; the names and
    their order never change.  On an event whose phase is not in the plan
    (or is undefined) the statuses are returned unchanged. *)
Theorem reconcile_event settings prev progress :
  name <$> prev = steps settings →
  (name <$> seed (steps settings) = steps settings ∧
   Forall (λ s, status s = pending) (seed (steps settings))) ∧
  name <$> reconcile (steps settings) progress prev = steps settings ∧
  (∀ x X, steps settings !! x = Some X → FlashService.step progress = Some X →
     ∀ i s, prev !! i = Some s →
       reconcile (steps settings) progress prev !! i
       = Some (if (i <? x)%nat then mkStep (name s) completed
               else if (i =? x)%nat then mkStep X active
               else s)) ∧
  ((∀ X, FlashService.step progress = Some X → X ∉ steps settings) →
     reconcile (steps settings) progress prev = prev).
Proof.
  intros Hnames. pose proof (page_steps_NoDup settings) as Hnd.
  revert Hnames Hnd. generalize (steps settings). intros plan Hnames Hnd. split_and!.
  - unfold seed. rewrite <- list_fmap_compose. apply list_fmap_id.
  - unfold seed. apply Forall_fmap, Forall_true. done.
  - by rewrite reconcile_names.
  - intros x X Hx HX i s Hs. unfold reconcile.
    rewrite list_lookup_imap, Hs, HX. cbn -[Nat.ltb Nat.eqb Z.ltb Js.indexOf].
    assert (plan !! i = Some (name s)) as Hi
      by (by rewrite <- Hnames, list_lookup_fmap, Hs).
    unfold Js.indexOf. rewrite (indexOf_from_found 0 _ x X) by done.
    destruct (decide (i = x)) as [->|Hne].
    + assert (name s = X) as -> by congruence.
      rewrite bool_decide_eq_true_2 by done.
      by rewrite Nat.ltb_irrefl, Nat.eqb_refl.
    + rewrite bool_decide_eq_false_2.
      * replace (Z.of_nat i <? 0 + Z.of_nat x) with (i <? x)%nat
          by (destruct (Nat.ltb_spec i x), (Z.ltb_spec (Z.of_nat i) (0 + Z.of_nat x)); lia).
        destruct (i <? x)%nat; [done|]. by rewrite (proj2 (Nat.eqb_neq i x)).
      * intros [= HsX]. apply Hne.
        apply (NoDup_lookup plan i x (name s)); [done|done|by rewrite HsX].
  - intros Habs. apply list_eq. intros i. unfold reconcile.
    rewrite list_lookup_imap. destruct (prev !! i) as [s|] eqn:Hs; [|done].
    cbn -[Nat.ltb Nat.eqb Z.ltb Js.indexOf].
    assert (name s ∈ plan) as Hin.
    { rewrite <- Hnames. apply list_elem_of_fmap. exists s. split; [done|].
      by eapply list_elem_of_lookup_2. }
    rewrite bool_decide_eq_false_2.
    + unfold Js.indexOf. rewrite indexOf_from_absent by done.
      by destruct (Z.ltb_spec (Z.of_nat i) (-1)); [lia|].
    + intros HsX. by apply (Habs (name s)).
Qed.

Lemma reconcile_event_witness :
  (name <$> seed (steps (mkSettings 115200 "0x1000" true))
     = steps (mkSettings 115200 "0x1000" true) ∧
   Forall (λ s, status s = pending) (seed (steps (mkSettings 115200 "0x1000" true)))) ∧
  name <$> reconcile (steps (mkSettings 115200 "0x1000" true))
             (Views.done_event 4096) (seed (steps (mkSettings 115200 "0x1000" true)))
    = steps (mkSettings 115200 "0x1000" true) ∧
  (∀ x X, steps (mkSettings 115200 "0x1000" true) !! x = Some X →
     FlashService.step (Views.done_event 4096) = Some X →
     ∀ i s, seed (steps (mkSettings 115200 "0x1000" true)) !! i = Some s →
       reconcile (steps (mkSettings 115200 "0x1000" true)) (Views.done_event 4096)
         (seed (steps (mkSettings 115200 "0x1000" true))) !! i
       = Some (if (i <? x)%nat then mkStep (name s) completed
               else if (i =? x)%nat then mkStep X active
               else s)) ∧
  ((∀ X, FlashService.step (Views.done_event 4096) = Some X →
         X ∉ steps (mkSettings 115200 "0x1000" true)) →
     reconcile (steps (mkSettings 115200 "0x1000" true)) (Views.done_event 4096)
       (seed (steps (mkSettings 115200 "0x1000" true)))
     = seed (steps (mkSettings 115200 "0x1000" true))).
Proof.
  apply (reconcile_event (mkSettings 115200 "0x1000" true)
           (seed (steps (mkSettings 115200 "0x1000" true))) (Views.done_event 4096)).
  vm_compute. reflexivity.
Defined.

(** *** Failure *)

Lemma compress_snoc {A} `{EqDecision A} (l : list A) (b : A) :
  compress (l ++ [b])
  = match last l with
    | Some a => if decide (a = b) then compress l else compress l ++ [b]
    | None => [b]
    end.
Proof.
  induction l as [|a l IH]; [done|].
  destruct l as [|a' l].
  - cbn. by destruct (decide (a = b)) as [->|].
  - change (compress ((a :: a' :: l) ++ [b]))
      with (if decide (a = a') then compress ((a' :: l) ++ [b])
            else a :: compress ((a' :: l) ++ [b])).
    change (compress (a :: a' :: l))
      with (if decide (a = a') then compress (a' :: l) else a :: compress (a' :: l)).
    rewrite IH, last_cons_cons.
    destruct (last (a' :: l)) as [c|] eqn:Hlast.
    + destruct (decide (c = b)), (decide (a = a')); done.
    + by apply last_None in Hlast.
Qed.

Lemma compress_last {A} `{EqDecision A} (l : list A) : last (compress l) = last l.
Proof.
  induction l as [|a l IH]; [done|].
  destruct l as [|a' l]; [done|].
  change (compress (a :: a' :: l))
    with (if decide (a = a') then compress (a' :: l) else a :: compress (a' :: l)).
  rewrite last_cons_cons. destruct (decide (a = a')); [done|].
  rewrite last_cons, IH. by destruct (last (a' :: l)) eqn:Hl; [|apply last_None in Hl].
Qed.

Lemma shape_names cur x plan : name <$> shape cur x plan = plan.
Proof.
  apply list_eq. intros i. unfold shape.
  rewrite list_lookup_fmap, list_lookup_imap. by destruct (plan !! i).
Qed.

(** An event of the phase at position [x], on statuses that are pending
    after [x]: that phase is current, between completed and pending ones. *)
Lemma reconcile_to_shape plan prev progress x X :
  NoDup plan → name <$> prev = plan →
  (∀ i s, prev !! i = Some s → (x < i)%nat → status s = pending) →
  plan !! x = Some X → FlashService.step progress = Some X →
  reconcile plan progress prev = shape active x plan.
Proof.
  intros Hnd Hnames Hafter Hx HX. apply list_eq. intros i. unfold reconcile, shape.
  rewrite !list_lookup_imap, HX.
  assert (plan !! i = name <$> prev !! i) as Hi by (by rewrite <- Hnames, list_lookup_fmap).
  rewrite Hi. destruct (prev !! i) as [s|] eqn:Hs; [|done].
  cbn -[Nat.ltb Nat.eqb Z.ltb Js.indexOf]. f_equal.
  unfold Js.indexOf. rewrite (indexOf_from_found 0 _ x X) by done.
  destruct (decide (i = x)) as [->|Hne].
  - assert (name s = X) as -> by (cbn in Hi; congruence).
    rewrite bool_decide_eq_true_2 by done. by rewrite Nat.ltb_irrefl, Nat.eqb_refl.
  - rewrite bool_decide_eq_false_2.
    + replace (Z.of_nat i <? 0 + Z.of_nat x) with (i <? x)%nat
        by (destruct (Nat.ltb_spec i x), (Z.ltb_spec (Z.of_nat i) (0 + Z.of_nat x)); lia).
      destruct (Nat.ltb_spec i x); [done|].
      rewrite (proj2 (Nat.eqb_neq i x)) by done.
      destruct s as [n st]. cbn. f_equal. apply (Hafter i (mkStep n st) Hs). lia.
    + intros [= HsX]. apply Hne.
      apply (NoDup_lookup plan i x (name s)); [done| |by rewrite HsX].
      by rewrite Hi.
Qed.

Lemma shape_pending_after cur q plan i s x :
  shape cur q plan !! i = Some s → (q ≤ x)%nat → (x < i)%nat → status s = pending.
Proof.
  unfold shape. rewrite list_lookup_imap. destruct (plan !! i); [|done].
  intros [= <-] Hq Hx. cbn -[Nat.ltb Nat.eqb].
  destruct (Nat.ltb_spec i q); [lia|]. by destruct (Nat.eqb_spec i q); [lia|].
Qed.

(** The statuses after the events of a run that went through the first
    [x + 1] phases of the plan, in order: phase [x] is active. *)
Lemma reconciled_follows plan es x :
  NoDup plan → (x < length plan)%nat →
  compress (FlashService.step <$> es) = Some <$> take (S x) plan →
  reconciled plan es = shape active x plan.
Proof.
  intros Hnd. revert x. induction es as [|e es IH] using rev_ind; intros x Hx Hes.
  { destruct plan; [cbn in Hx; lia|done]. }
  destruct (lookup_lt_is_Some_2 plan x Hx) as [X HX].
  assert (Some <$> take (S x) plan = (Some <$> take x plan) ++ [Some X]) as Htake
    by (rewrite (take_S_r _ _ X) by done; by rewrite fmap_app).
  rewrite fmap_app in Hes.
  change (FlashService.step <$> [e]) with [FlashService.step e] in Hes.
  rewrite compress_snoc, Htake in Hes.
  unfold reconciled in *. rewrite foldl_app. cbn [foldl].
  destruct (last (FlashService.step <$> es)) as [b|] eqn:Hlast.
  - destruct (decide (b = FlashService.step e)) as [->|Hne].
    + assert (FlashService.step e = Some X) as HeX.
      { rewrite <- compress_last, Hes, last_snoc in Hlast. by injection Hlast. }
      rewrite <- Htake in Hes. rewrite (IH x Hx Hes).
      apply (reconcile_to_shape _ _ _ x X); try done; [apply shape_names|].
      intros i s Hs Hi. by apply (shape_pending_after active x plan i s x).
    + apply app_inj_tail in Hes as [Hes HeX].
      destruct x as [|x].
      { apply (f_equal last) in Hes. rewrite compress_last, Hlast in Hes. done. }
      rewrite (IH x ltac:(lia) Hes).
      apply (reconcile_to_shape _ _ _ (S x) X); try done; [apply shape_names|].
      intros i s Hs Hi. apply (shape_pending_after active x plan i s (S x)); [done|lia|done].
  - apply last_None, fmap_nil_inv in Hlast as ->. cbn [foldl].
    assert (length [FlashService.step e] = length ((Some <$> take x plan) ++ [Some X]))
      as Hlen by (by rewrite Hes).
    rewrite length_app, length_fmap, length_take in Hlen. cbn in Hlen.
    assert (x = 0)%nat as -> by lia. cbn in Hes. injection Hes as HeX.
    apply (reconcile_to_shape _ _ _ 0%nat X); try done.
    + unfold seed. rewrite <- list_fmap_compose. apply list_fmap_id.
    + intros i s Hs _. unfold seed in Hs. rewrite list_lookup_fmap in Hs.
      destruct (plan !! i); [|done]. by injection Hs as <-.
Qed.

Lemma markActiveError_shape x plan :
  markActiveError (shape active x plan) = shape error x plan.
Proof.
  apply list_eq. intros i. unfold markActiveError, shape.
  rewrite list_lookup_fmap, !list_lookup_imap. destruct (plan !! i) as [n|]; [|done].
  cbn -[Nat.ltb Nat.eqb]. f_equal.
  destruct (i <? x)%nat; [done|]. by destruct (i =? x)%nat.
Qed.

Lemma markActiveError_lookup st i s :
  st !! i = Some s →
  markActiveError st !! i
  = Some (if bool_decide (status s = active) then mkStep (name s) error else s).
Proof. intros Hs. unfold markActiveError. by rewrite list_lookup_fmap, Hs. Qed.

(** The handler against a service whose run calls the callback on the
    events [es] and then rejects with [err]. *)
Lemma handleFlash_on_failed_run flash es err startTime endTime ui fw :
  firmwareFile ui = Some fw → isConnected ui = true →
  (∀ cb options σ, flash cb options σ = (feed cb σ es, inl err)) →
  flashSteps (handleFlash_on flash startTime endTime ui)
    = markActiveError (reconciled (steps (advancedSettings ui)) es) ∧
  flashError (handleFlash_on flash startTime endTime ui)
    = Some (FlashService.getErrorMessage err) ∧
  flashCompleted (handleFlash_on flash startTime endTime ui) = false ∧
  isFlashing (handleFlash_on flash startTime endTime ui) = false ∧
  flashStats (handleFlash_on flash startTime endTime ui) = flashStats ui.
Proof.
  intros Hfw Hconn Hflash. unfold handleFlash_on. rewrite Hfw, Hconn. cbn [negb].
  rewrite Hflash. cbn -[steps seed FlashService.getErrorMessage].
  rewrite IndexFacts.feed_steps.
  match goal with |- context [feed ?f ?u ?es] =>
    destruct (IndexFacts.feed_frame (steps (advancedSettings ui)) u es)
      as (_ & _ & -> & ->) end.
  done.
Qed.

(** C9: a run that goes through the first [x + 1] phases of the plan, in
    order, and then fails while phase [X], at position [x], is current.
    At the moment of the failure [X] is active, the phases before it are
    completed and those after it are pending.  The handler (which is
    [handleFlash], run against the service that fails) leaves [X] as
    error, the phases before it completed and those after it pending; its
    updater changes a status only where it is active.  It records the
    classified message, and the flash is neither completed nor in
    progress. *)
Theorem failure_marks_active_phase flash es err startTime endTime ui fw x X :
  firmwareFile ui = Some fw →
  isConnected ui = true →
  (∀ cb options σ, flash cb options σ = (feed cb σ es, inl err)) →
  steps (advancedSettings ui) !! x = Some X →
  compress (FlashService.step <$> es) = Some <$> take (S x) (steps (advancedSettings ui)) →
  (∀ self,
     handleFlash self startTime endTime ui
     = handleFlash_on (λ cb options σ, FlashService.flash cb self options σ)
         startTime endTime ui) ∧
  (last es ≫= FlashService.step = Some X ∧
   reconciled (steps (advancedSettings ui)) es
   = shape active x (steps (advancedSettings ui))) ∧
  flashSteps (handleFlash_on flash startTime endTime ui)
  = shape error x (steps (advancedSettings ui)) ∧
  (∀ i n, steps (advancedSettings ui) !! i = Some n →
     flashSteps (handleFlash_on flash startTime endTime ui) !! i
     = Some (mkStep n (if (i <? x)%nat then completed
                       else if (i =? x)%nat then error else pending))) ∧
  (∀ st i s, st !! i = Some s → status s ≠ active → markActiveError st !! i = Some s) ∧
  flashError (handleFlash_on flash startTime endTime ui)
  = Some (FlashService.getErrorMessage err) ∧
  flashCompleted (handleFlash_on flash startTime endTime ui) = false ∧
  isFlashing (handleFlash_on flash startTime endTime ui) = false.
Proof.
  intros Hfw Hconn Hflash HX Hes.
  pose proof (page_steps_NoDup (advancedSettings ui)) as Hnd.
  assert (x < length (steps (advancedSettings ui)))%nat as Hx by (by eapply lookup_lt_Some).
  pose proof (reconciled_follows _ es x Hnd Hx Hes) as Hactive.
  destruct (handleFlash_on_failed_run flash es err startTime endTime ui fw Hfw Hconn Hflash)
    as (Hsteps & Herr & Hdone & Hfl & _).
  rewrite Hactive, markActiveError_shape in Hsteps.
  split_and!; try done.
  - assert (last (FlashService.step <$> es) = Some (Some X)) as Hlast.
    { rewrite <- compress_last, Hes, fmap_last.
      by rewrite (take_S_r _ _ X), last_snoc by done. }
    rewrite fmap_last in Hlast. destruct (last es) as [e|]; [|done].
    by injection Hlast.
  - intros i n Hi. rewrite Hsteps. unfold shape. by rewrite list_lookup_imap, Hi.
  - intros st i s Hs Hna. rewrite (markActiveError_lookup st i s) by done.
    by rewrite bool_decide_eq_false_2.
Qed.

Lemma failure_marks_active_phase_witness :
  (∀ self,
     handleFlash self 1000 2350 ui4096
     = handleFlash_on (λ cb options σ, FlashService.flash cb self options σ)
         1000 2350 ui4096) ∧
  (last (take 14 (FlashService.flash_events connected options4096)) ≫= FlashService.step
   = Some "Writing" ∧
   reconciled (steps (advancedSettings ui4096))
     (take 14 (FlashService.flash_events connected options4096))
   = shape active 3 (steps (advancedSettings ui4096))) ∧
  flashSteps (handleFlash_on interrupted_flash 1000 2350 ui4096)
  = shape error 3 (steps (advancedSettings ui4096)) ∧
  (∀ i n, steps (advancedSettings ui4096) !! i = Some n →
     flashSteps (handleFlash_on interrupted_flash 1000 2350 ui4096) !! i
     = Some (mkStep n (if (i <? 3)%nat then completed
                       else if (i =? 3)%nat then error else pending))) ∧
  (∀ st i s, st !! i = Some s → status s ≠ active → markActiveError st !! i = Some s) ∧
  flashError (handleFlash_on interrupted_flash 1000 2350 ui4096)
  = Some "Flash failed: The device has been lost." ∧
  flashCompleted (handleFlash_on interrupted_flash 1000 2350 ui4096) = false ∧
  isFlashing (handleFlash_on interrupted_flash 1000 2350 ui4096) = false.
Proof.
  apply (failure_marks_active_phase interrupted_flash
           (take 14 (FlashService.flash_events connected options4096))
           (Js.new_Error "Flash failed: The device has been lost.")
           1000 2350 ui4096 (firmware 4096) 3 "Writing").
  - reflexivity.
  - reflexivity.
  - intros cb options σ. reflexivity.
  - reflexivity.
  - vm_compute. reflexivity.
Defined.

(** Every non-empty prefix of the stream of [flash] goes through the first
    phases of the plan, in order: a run of [flash] that is interrupted is
    a run as in [failure_marks_active_phase]. *)
Lemma stream_prefix_follows_plan self p options k :
  FlashService.port self = Some p →
  (k < length (FlashService.flash_events self options))%nat →
  ∃ x, (x < length (FlashService.steps options))%nat ∧
       compress (FlashService.step <$> take (S k) (FlashService.flash_events self options))
       = Some <$> take (S x) (FlashService.steps options).
Proof.
  intros Hp Hk. rewrite (FlashFacts.flash_events_connected _ _ p) in * by done.
  rewrite FlashFacts.length_run_events in Hk.
  rewrite fmap_take, FlashFacts.run_steps. unfold FlashService.steps.
  destruct (FlashService.eraseFlash options).
  - assert (Forall (λ j, existsb (λ x, bool_decide
              (compress (take (S j)
                 ([Some "Connecting"; Some "Syncing"] ++ [Some "Erasing"] ++
                  replicate 51 (Some "Writing") ++ [Some "Verifying"; Some "Done"]))
               = Some <$> take (S x)
                   ["Connecting"; "Syncing"; "Erasing"; "Writing"; "Verifying"; "Done"]))
              (seq 0 6) = true) (seq 0 56)) as Hforall
      by (apply (bool_decide_unpack _); by vm_compute).
    rewrite Forall_forall in Hforall.
    specialize (Hforall k ltac:(apply elem_of_seq; lia)).
    apply existsb_exists in Hforall as (x & Hx & Hx').
    apply in_seq in Hx. apply bool_decide_eq_true in Hx'. exists x. split; [cbn; lia|done].
  - assert (Forall (λ j, existsb (λ x, bool_decide
              (compress (take (S j)
                 ([Some "Connecting"; Some "Syncing"] ++ [] ++
                  replicate 51 (Some "Writing") ++ [Some "Verifying"; Some "Done"]))
               = Some <$> take (S x)
                   ["Connecting"; "Syncing"; "Writing"; "Verifying"; "Done"]))
              (seq 0 5) = true) (seq 0 55)) as Hforall
      by (apply (bool_decide_unpack _); by vm_compute).
    rewrite Forall_forall in Hforall.
    specialize (Hforall k ltac:(apply elem_of_seq; lia)).
    apply existsb_exists in Hforall as (x & Hx & Hx').
    apply in_seq in Hx. apply bool_decide_eq_true in Hx'. exists x. split; [cbn; lia|done].
Qed.

End Reconciler.

(** ** More on the device session *)

Module SessionMore.
Import FlashService Scenario.

(** [disconnect], on a session whose handle, if any, is an open port (the
    case in which [close] resolves): calling it twice is calling it once; afterwards no handle is held and
    the port that was held is closed, every other port being as before; a
    session without handle is left as it is. *)
Theorem disconnect_closes_and_is_idempotent self :
  (∀ p, port self = Some p → port_id p ∈ open_ports self) →
  disconnect (disconnect self) = disconnect self ∧
  port (disconnect self) = None ∧
  (∀ p, port self = Some p →
     (port_id p ∉ open_ports (disconnect self)) ∧
     ∀ q, q ≠ port_id p → (q ∈ open_ports (disconnect self) ↔ q ∈ open_ports self)) ∧
  (port self = None → disconnect self = self).
Proof.
  intros Hopen. unfold disconnect, disconnect_call, SerialPort_close.
  destruct (port self) as [p|] eqn:Hp; cbn; rewrite ?Hp; [|by split_and!].
  rewrite decide_True by (by apply Hopen); cbn. split_and!; try done.
  intros p' [= <-]. split.
  - rewrite elem_of_difference, elem_of_singleton. tauto.
  - intros q Hq. rewrite elem_of_difference, elem_of_singleton. tauto.
Qed.

Lemma disconnect_closes_and_is_idempotent_witness :
  disconnect (disconnect connected) = disconnect connected ∧
  port (disconnect connected) = None ∧
  (∀ p, port connected = Some p →
     (port_id p ∉ open_ports (disconnect connected)) ∧
     ∀ q, q ≠ port_id p →
       (q ∈ open_ports (disconnect connected) ↔ q ∈ open_ports connected)) ∧
  (port connected = None → disconnect connected = connected).
Proof.
  apply (disconnect_closes_and_is_idempotent connected).
  intros p Hp. vm_compute in Hp. injection Hp as <-. vm_compute. set_solver.
Defined.

(** [connect] closes no port, whatever the platform answers; when it
    returns a device, the handle is the port the user picked, that port was
    not open before and is the one port opened by the call. *)
Theorem connect_opens_the_picked_port env self :
  open_ports self ⊆ open_ports (connect env self).1 ∧
  ∀ info, (connect env self).2 = inr info →
    ∃ p, requestPort env = inr p ∧
         port (connect env self).1 = Some p ∧
         (port_id p ∉ open_ports self) ∧
         open_ports (connect env self).1 = {[ port_id p ]} ∪ open_ports self ∧
         info = detectDevice env (connect env self).1.
Proof.
  unfold connect, SerialPort_open.
  destruct (requestPort env) as [e|q]; cbn -[detectDevice]; [by split|].
  destruct (decide _) as [Hin|Hnin]; cbn -[detectDevice]; [by split|].
  destruct (open_fails env); cbn -[detectDevice]; [by split|].
  split; [set_solver|]. intros info [= <-]. by exists q.
Qed.

(** Connecting a session without handle and then disconnecting it gives
    the session back: no handle, and the ports that were open before. *)
Theorem connect_then_disconnect env self info :
  port self = None →
  (connect env self).2 = inr info →
  disconnect (connect env self).1 = self.
Proof.
  intros Hnone Hok.
  destruct (connect_opens_the_picked_port env self) as [_ Hpost].
  destruct (Hpost info Hok) as (p & _ & Hp & Hnin & Hopen & _).
  unfold disconnect, disconnect_call, SerialPort_close. rewrite Hp, Hopen.
  rewrite decide_True by (apply elem_of_union_l, elem_of_singleton; reflexivity).
  destruct self as [prt ports]; cbn in *. subst prt. f_equal.
  apply set_eq. intros q.
  rewrite elem_of_difference, elem_of_union, elem_of_singleton.
  split; [tauto|]. intros Hq. split; [tauto|]. by intros ->.
Qed.

Lemma connect_then_disconnect_witness :
  disconnect (connect (pick portA) init).1 = init.
Proof.
  apply (connect_then_disconnect (pick portA) init
           (detectDevice (pick portA) (connect (pick portA) init).1)); reflexivity.
Defined.

End SessionMore.

(** ** The error classifier *)

Module Classifier.
Import FlashService.

(** Whatever the error, the classifier gives a non-empty message and a
    non-empty suggestion. *)
Theorem classifier_is_never_empty err :
  getErrorMessage err ≠ "" ∧ getErrorSuggestion err ≠ "".
Proof.
  unfold getErrorMessage, getErrorSuggestion. split.
  - repeat (case_bool_decide; [done|]). by destruct (Js.message err).
  - repeat (case_bool_decide; [done|]). done.
Qed.

(** Every error thrown by [connect] is a plain [Error] whose message is
    "Failed to connect: " followed by the message of its cause, the cause
    being the error with which [requestPort], or else the [open] of the
    picked port, was rejected.  The cause's name is lost, so the classifier
    never answers with one of its four specific messages: it returns that
    message, and the generic suggestion. *)
Theorem connect_errors_are_not_classified env self err :
  (connect env self).2 = inl err →
  ∃ cause,
    (requestPort env = inl cause ∨
     ∃ p, requestPort env = inr p ∧
          (SerialPort_open env p (open_ports self)).2 = inl cause) ∧
    err = Js.mkError "Error" ("Failed to connect: " +:+ Js.message cause) ∧
    getErrorMessage err = "Failed to connect: " +:+ Js.message cause ∧
    getErrorSuggestion err = "Check your device connection and try again.".
Proof.
  assert (∀ cause, getErrorMessage (connect_failed cause)
                   = "Failed to connect: " +:+ Js.message cause ∧
                   getErrorSuggestion (connect_failed cause)
                   = "Check your device connection and try again.") as Hwrap by done.
  unfold connect.
  destruct (requestPort env) as [e|q]; cbn [fst snd open_ports port].
  - intros [= <-]. exists e. split_and!; [by left|done|apply Hwrap..].
  - destruct (SerialPort_open env q (open_ports self)) as [ports [e|[]]] eqn:Hopen;
      cbn -[detectDevice]; [|done].
    intros [= <-]. exists e. split_and!; [|done|apply Hwrap..].
    right. exists q. by rewrite Hopen.
Qed.

Lemma connect_errors_are_not_classified_witness :
  ∃ cause,
    (requestPort Scenario.cancel = inl cause ∨
     ∃ p, requestPort Scenario.cancel = inr p ∧
          (SerialPort_open Scenario.cancel p (open_ports init)).2 = inl cause) ∧
    Js.mkError "Error" "Failed to connect: No port selected by the user."
    = Js.mkError "Error" ("Failed to connect: " +:+ Js.message cause) ∧
    getErrorMessage (Js.mkError "Error" "Failed to connect: No port selected by the user.")
    = "Failed to connect: " +:+ Js.message cause ∧
    getErrorSuggestion (Js.mkError "Error" "Failed to connect: No port selected by the user.")
    = "Check your device connection and try again.".
Proof.
  apply (connect_errors_are_not_classified Scenario.cancel init). reflexivity.
Defined.

End Classifier.

(** ** Sizes, durations and the mock device *)

Module Formatting.
Import FlashService.

Lemma small_sizes_differ :
  Forall (λ b, FlashCard.formatFileSize b ≠ formatBytes b) (seqZ 0 1024).
Proof. apply (bool_decide_unpack _). by vm_compute. Qed.

(** The firmware card prints a size as the service does.  The summary of
    the flash card has no branch for bytes: it prints the same text as the
    service exactly for the sizes of at least 1024 bytes, and kilobytes
    below. *)
Theorem size_formatters_agree_from_1024 (n : N) :
  FirmwareCard.formatFileSize (Z.of_N n) = formatBytes (Z.of_N n) ∧
  (FlashCard.formatFileSize (Z.of_N n) = formatBytes (Z.of_N n) ↔ (1024 ≤ n)%N) ∧
  ((n < 1024)%N →
     FlashCard.formatFileSize (Z.of_N n) = Js.toFixed1_div (Z.of_N n) 1024 +:+ " KB" ∧
     formatBytes (Z.of_N n) = pretty (Z.of_N n) +:+ " B").
Proof.
  split; [done|]. split.
  - split.
    + intros Heq. destruct (decide (1024 ≤ n)%N) as [|Hsmall]; [done|]. exfalso.
      pose proof small_sizes_differ as Hdiff. rewrite Forall_seqZ in Hdiff.
      apply (Hdiff (Z.of_N n)); [lia|done].
    + intros Hbig. unfold FlashCard.formatFileSize, formatBytes.
      destruct (Z.ltb_spec (Z.of_N n) 1024); [lia|done].
  - intros Hsmall. unfold FlashCard.formatFileSize, formatBytes.
    destruct (Z.ltb_spec (Z.of_N n) 1024); [|lia].
    destruct (Z.ltb_spec (Z.of_N n) (1024 * 1024)); [done|lia].
Qed.






End Formatting.

(** ** More on the flash handler *)

Module HandlerFacts.
Import Views.
Import Index.

Lemma feed_inputs plan ui es :
  isConnected (feed (onProgress plan) ui es) = isConnected ui ∧
  firmwareFile (feed (onProgress plan) ui es) = firmwareFile ui ∧
  advancedSettings (feed (onProgress plan) ui es) = advancedSettings ui ∧
  isFlashing (feed (onProgress plan) ui es) = isFlashing ui.
Proof.
  revert ui; induction es as [|e es IH]; intros ui; [done|].
  cbn [feed foldl]. unfold feed in IH.
  destruct (IH (onProgress plan e ui)) as (-> & -> & -> & ->). done.
Qed.

Lemma feed_progress_snoc plan ui es e :
  flashProgress (feed (onProgress plan) ui (es ++ [e])) = FlashService.progress e.
Proof. by rewrite FlashFacts.feed_app. Qed.

Lemma reconciled_names plan es : name <$> reconciled plan es = plan.
Proof.
  unfold reconciled.
  assert (∀ st, name <$> foldl (λ st e, reconcile plan e st) st es = name <$> st) as H.
  { induction es as [|e es IH]; intros st; cbn; [done|].
    by rewrite IH, Reconciler.reconcile_names. }
  rewrite H. unfold seed. rewrite <- list_fmap_compose. apply list_fmap_id.
Qed.

Lemma markAllCompleted_names st :
  markAllCompleted st = (λ n, mkStep n completed) <$> (name <$> st).
Proof. unfold markAllCompleted. by rewrite <- list_fmap_compose. Qed.

(** The updater of the progress callback is idempotent: a second event of
    the same phase changes nothing more. *)
Theorem reconcile_twice plan progress prev :
  reconcile plan progress (reconcile plan progress prev) = reconcile plan progress prev.
Proof.
  apply list_eq. intros i. unfold reconcile.
  rewrite !list_lookup_imap. destruct (prev !! i) as [s|]; [|done].
  cbn [fmap option_fmap option_map]. f_equal.
  set (idx := Js.indexOf plan (FlashService.step progress)).
  destruct (bool_decide (Some (name s) = FlashService.step progress)) eqn:Hs.
  - cbn [name]. by rewrite Hs.
  - destruct (Z.of_nat i <? idx) eqn:Hi; cbn [name]; by rewrite Hs, ?Hi.
Qed.

End HandlerFacts.

Module HandlerStates.
Import Views.
Import Index.

(** What [handleFlash] leaves behind on a service that holds a port. *)
Lemma handleFlash_connected_state self p startTime endTime ui fw :
  FlashService.port self = Some p →
  firmwareFile ui = Some fw →
  isConnected ui = true →
  flashSteps (handleFlash self startTime endTime ui)
    = (λ n, mkStep n completed) <$> steps (advancedSettings ui) ∧
  flashCompleted (handleFlash self startTime endTime ui) = true ∧
  flashError (handleFlash self startTime endTime ui) = None ∧
  isFlashing (handleFlash self startTime endTime ui) = false ∧
  flashProgress (handleFlash self startTime endTime ui) = 100%float ∧
  length (flashLogs (handleFlash self startTime endTime ui))
    = (if eraseFlash (advancedSettings ui) then 56 else 55)%nat ∧
  last (flashLogs (handleFlash self startTime endTime ui))
    = Some "Flash completed successfully!" ∧
  isConnected (handleFlash self startTime endTime ui) = true ∧
  firmwareFile (handleFlash self startTime endTime ui) = Some fw ∧
  advancedSettings (handleFlash self startTime endTime ui) = advancedSettings ui ∧
  ∃ stats, flashStats (handleFlash self startTime endTime ui) = Some stats ∧
           fileSize stats = FlashService.size fw ∧
           stats_baudRate stats = baudRate (advancedSettings ui) ∧
           duration stats = endTime - startTime.
Proof.
  intros Hp Hfw Hconn.
  destruct (IndexFacts.handleFlash_connected self p startTime endTime ui fw Hp Hfw Hconn)
    as (Hfl & Hdone & Herr & Hsteps & Hlogs & Hstats).
  rewrite Hfl, Hdone, Herr, Hsteps, Hlogs, Hstats.
  rewrite HandlerFacts.markAllCompleted_names, HandlerFacts.reconciled_names.
  rewrite (FlashFacts.flash_events_connected _ _ p) by done. cbn [FlashService.eraseFlash].
  rewrite length_fmap, FlashFacts.length_run_events.
  rewrite fmap_last, FlashFacts.run_events_snoc, last_snoc.
  split_and!; try done; [| | | |by eexists].
  all: unfold handleFlash; rewrite Hfw, Hconn; cbn [negb];
    rewrite FlashFacts.flash_feeds, (FlashFacts.flash_result_connected _ _ p) by done;
    cbn -[steps seed].
  - rewrite (FlashFacts.flash_events_connected _ _ p) by done.
    rewrite FlashFacts.run_events_snoc. by rewrite HandlerFacts.feed_progress_snoc.
  - match goal with |- context [feed ?f ?u ?es] =>
      destruct (HandlerFacts.feed_inputs (steps (advancedSettings ui)) u es)
        as (-> & _ & _ & _) end. done.
  - match goal with |- context [feed ?f ?u ?es] =>
      destruct (HandlerFacts.feed_inputs (steps (advancedSettings ui)) u es)
        as (_ & -> & _ & _) end. done.
  - match goal with |- context [feed ?f ?u ?es] =>
      destruct (HandlerFacts.feed_inputs (steps (advancedSettings ui)) u es)
        as (_ & _ & -> & _) end. done.
Qed.

Lemma handleFlash_guard self startTime endTime ui :
  firmwareFile ui = None ∨ isConnected ui = false →
  handleFlash self startTime endTime ui = ui.
Proof.
  intros [Hf|Hc]; unfold handleFlash.
  - by rewrite Hf.
  - destruct (firmwareFile ui); [|done]. by rewrite Hc.
Qed.

Lemma handleReset_state ui :
  isConnected (handleReset ui) = isConnected ui ∧
  deviceInfo (handleReset ui) = deviceInfo ui ∧
  firmwareFile (handleReset ui) = firmwareFile ui ∧
  advancedSettings (handleReset ui) = advancedSettings ui ∧
  isFlashing (handleReset ui) = isFlashing ui ∧
  flashProgress (handleReset ui) = 0%float ∧
  flashLogs (handleReset ui) = [] ∧
  flashSteps (handleReset ui) = seed (name <$> flashSteps ui) ∧
  flashError (handleReset ui) = None ∧
  flashCompleted (handleReset ui) = false ∧
  flashStats (handleReset ui) = None.
Proof.
  unfold handleReset; cbn. split_and!; try done.
  unfold seed. by rewrite <- list_fmap_compose.
Qed.

End HandlerStates.

Module Handler.
Import Views Scenario.
Import Index.

(** A flash started from the page on a service that holds a port always
    completes: every phase of the plan ends completed, the progress is 100,
    the log has one line per event and ends with the success message, no
    error is set, and the statistics carry the size of the file, the baud
    rate of the settings and the difference of the two clock readings. *)
Theorem handleFlash_completes self p startTime endTime ui fw :
  FlashService.port self = Some p →
  firmwareFile ui = Some fw →
  isConnected ui = true →
  flashSteps (handleFlash self startTime endTime ui)
    = (λ n, mkStep n completed) <$> steps (advancedSettings ui) ∧
  flashCompleted (handleFlash self startTime endTime ui) = true ∧
  flashError (handleFlash self startTime endTime ui) = None ∧
  isFlashing (handleFlash self startTime endTime ui) = false ∧
  flashProgress (handleFlash self startTime endTime ui) = 100%float ∧
  length (flashLogs (handleFlash self startTime endTime ui))
    = (if eraseFlash (advancedSettings ui) then 56 else 55)%nat ∧
  last (flashLogs (handleFlash self startTime endTime ui))
    = Some "Flash completed successfully!" ∧
  ∃ stats, flashStats (handleFlash self startTime endTime ui) = Some stats ∧
           fileSize stats = FlashService.size fw ∧
           stats_baudRate stats = baudRate (advancedSettings ui) ∧
           duration stats = endTime - startTime.
Proof.
  intros Hp Hfw Hconn.
  destruct (HandlerStates.handleFlash_connected_state self p startTime endTime ui fw
              Hp Hfw Hconn) as (? & ? & ? & ? & ? & ? & ? & _ & _ & _ & ?).
  done.
Qed.

Lemma handleFlash_completes_witness :
  flashSteps (handleFlash connected 1000 5350 ui4096)
    = (λ n, mkStep n completed) <$> steps (advancedSettings ui4096) ∧
  flashCompleted (handleFlash connected 1000 5350 ui4096) = true ∧
  flashError (handleFlash connected 1000 5350 ui4096) = None ∧
  isFlashing (handleFlash connected 1000 5350 ui4096) = false ∧
  flashProgress (handleFlash connected 1000 5350 ui4096) = 100%float ∧
  length (flashLogs (handleFlash connected 1000 5350 ui4096)) = 56%nat ∧
  last (flashLogs (handleFlash connected 1000 5350 ui4096))
    = Some "Flash completed successfully!" ∧
  ∃ stats, flashStats (handleFlash connected 1000 5350 ui4096) = Some stats ∧
           fileSize stats = 4096%N ∧
           stats_baudRate stats = 115200 ∧
           duration stats = 5350 - 1000.
Proof.
  apply (handleFlash_completes connected portA 1000 5350 ui4096 (firmware 4096));
    vm_compute; reflexivity.
Defined.

(** The handler does nothing without a firmware file or while the page is
    not connected.  Started on a service that holds no port, it records the
    message "No device connected" and stops: no step is marked as error
    (all are pending), nothing is logged, and the flash is not completed. *)
Theorem handleFlash_refusals self startTime endTime ui :
  (firmwareFile ui = None ∨ isConnected ui = false →
     handleFlash self startTime endTime ui = ui) ∧
  (∀ fw, FlashService.port self = None → firmwareFile ui = Some fw → isConnected ui = true →
     flashError (handleFlash self startTime endTime ui) = Some "No device connected" ∧
     flashSteps (handleFlash self startTime endTime ui) = seed (steps (advancedSettings ui)) ∧
     flashCompleted (handleFlash self startTime endTime ui) = false ∧
     flashStats (handleFlash self startTime endTime ui) = flashStats ui).
Proof.
  split; [apply HandlerStates.handleFlash_guard|].
  intros fw Hp Hfw Hconn.
  destruct (IndexFacts.handleFlash_disconnected self startTime endTime ui fw Hp Hfw Hconn)
    as (? & ? & ? & ?). done.
Qed.

Lemma handleFlash_refusals_witness :
  (firmwareFile ui4096 = None ∨ isConnected ui4096 = false →
     handleFlash FlashService.init 0 1 ui4096 = ui4096) ∧
  (flashError (handleFlash FlashService.init 0 1 ui4096) = Some "No device connected" ∧
   flashSteps (handleFlash FlashService.init 0 1 ui4096)
     = seed (steps (advancedSettings ui4096)) ∧
   flashCompleted (handleFlash FlashService.init 0 1 ui4096) = false ∧
   flashStats (handleFlash FlashService.init 0 1 ui4096) = flashStats ui4096).
Proof.
  split.
  - apply (handleFlash_refusals FlashService.init 0 1 ui4096).
  - apply (proj2 (handleFlash_refusals FlashService.init 0 1 ui4096) (firmware 4096));
      reflexivity.
Defined.

(** [handleReset] sets every step back to pending, keeping the names and
    their order, and clears progress, log, error, completion and statistics;
    doing it twice is doing it once.  After a completed flash the steps are
    those of that run's plan, pending: five when the run was without erase,
    not the six the page starts with. *)
Theorem handleReset_restores_pending ui :
  handleReset (handleReset ui) = handleReset ui ∧
  flashSteps (handleReset ui) = seed (name <$> flashSteps ui) ∧
  flashProgress (handleReset ui) = 0%float ∧ flashLogs (handleReset ui) = [] ∧
  flashError (handleReset ui) = None ∧ flashCompleted (handleReset ui) = false ∧
  flashStats (handleReset ui) = None ∧
  ∀ self p startTime endTime fw,
    FlashService.port self = Some p → firmwareFile ui = Some fw → isConnected ui = true →
    flashSteps (handleReset (handleFlash self startTime endTime ui))
    = seed (steps (advancedSettings ui)).
Proof.
  destruct (HandlerStates.handleReset_state ui)
    as (_ & _ & _ & _ & _ & Hpr & Hlog & Hst & Herr & Hdone & Hstats).
  split_and!; try done.
  - clear. destruct ui as [c d f a fl pr lg st er dn ss].
    cbv beta iota zeta delta
      [handleReset setFlashStats setFlashSteps setFlashLogs setFlashProgress
       setFlashError setFlashCompleted isConnected deviceInfo firmwareFile
       advancedSettings isFlashing flashProgress flashLogs flashSteps flashError
       flashCompleted flashStats].
    apply (f_equal (λ st', mk c d f a fl 0%float [] st' None false None)).
    rewrite <- list_fmap_compose. by apply list_fmap_ext.
  - intros self p startTime endTime fw Hp Hfw Hconn.
    destruct (HandlerStates.handleReset_state (handleFlash self startTime endTime ui))
      as (_ & _ & _ & _ & _ & _ & _ & -> & _).
    destruct (HandlerStates.handleFlash_connected_state self p startTime endTime ui fw
                Hp Hfw Hconn) as (-> & _).
    apply (f_equal seed). rewrite <- list_fmap_compose. apply list_fmap_id.
Qed.

Lemma handleReset_restores_pending_witness :
  flashSteps (handleReset (handleFlash connected 1000 5350 ui4096))
  = seed (steps (advancedSettings ui4096)).
Proof.
  apply (handleReset_restores_pending ui4096); vm_compute; reflexivity.
Defined.

End Handler.

(** ** Firmware intake *)

Module Intake.
Import FlashService FirmwareCard.

Lemma find_first_bin pre f post :
  Forall (λ g, is_bin g = false) pre → is_bin f = true →
  List.find is_bin (pre ++ f :: post) = Some f.
Proof.
  intros Hpre Hf. induction Hpre as [|g pre Hg _ IH]; cbn.
  - by rewrite Hf.
  - by rewrite Hg.
Qed.

Lemma find_no_bin pre :
  Forall (λ g, is_bin g = false) pre → List.find is_bin pre = None.
Proof. induction 1 as [|g pre Hg _ IH]; cbn; [done|]. by rewrite Hg. Qed.

Lemma substring_all s : String.substring 0 (String.length s) s = s.
Proof. induction s as [|c s IH]; cbn; [done|]. by rewrite IH. Qed.

Lemma substring_skip a s :
  String.substring (String.length a) (String.length s) (a +:+ s) = s.
Proof. induction a as [|c a IH]; [apply substring_all|apply IH]. Qed.

Lemma length_app_string a s :
  String.length (a +:+ s) = (String.length a + String.length s)%nat.
Proof. induction a as [|c a IH]; [done|]. simpl. f_equal. exact IH. Qed.

Lemma toLowerCase_app a s : toLowerCase (a +:+ s) = toLowerCase a +:+ toLowerCase s.
Proof. induction a as [|c a IH]; [done|]. simpl. rewrite IH. reflexivity. Qed.

Lemma length_toLowerCase s : String.length (toLowerCase s) = String.length s.
Proof. induction s as [|c s IH]; [done|]. simpl. f_equal. exact IH. Qed.

Lemma endsWith_app suffix a : endsWith suffix (a +:+ suffix) = true.
Proof.
  unfold endsWith. rewrite length_app_string.
  replace (String.length a + String.length suffix - String.length suffix)%nat
    with (String.length a) by lia.
  rewrite substring_skip, String.eqb_refl.
  apply andb_true_intro. split; [|done]. apply Nat.leb_le. lia.
Qed.

(** A file is taken for a firmware when its name ends in ".bin", in any
    letter case, whatever comes before, even nothing. *)
Theorem is_bin_accepts_any_case base ext n :
  toLowerCase ext = ".bin" → is_bin (mkFile (base +:+ ext) n) = true.
Proof.
  intros Hext. unfold is_bin; cbn [file_name].
  rewrite toLowerCase_app, Hext. apply endsWith_app.
Qed.

Lemma is_bin_accepts_any_case_witness :
  is_bin (mkFile ("Blink-v2" +:+ ".BIN") 4096) = true.
Proof. apply (is_bin_accepts_any_case "Blink-v2" ".BIN" 4096). reflexivity. Defined.

(** A drop that hands a file to the page hands over a file of the drop
    whose name ends in ".bin" and whose size is at most 16 MiB, and clears
    the card's error. *)
Theorem handleDrop_selects_a_small_bin files card card' f :
  handleDrop files card = (card', Some f) →
  f ∈ files ∧ is_bin f = true ∧ (size f ≤ 16 * 1024 * 1024)%N ∧
  card' = mk false None.
Proof.
  unfold handleDrop. destruct (List.find is_bin files) as [g|] eqn:Hfind; [|done].
  apply List.find_some in Hfind as [Hin Hbin].
  destruct (N.ltb_spec (16 * 1024 * 1024) (size g)); [done|].
  intros [= <- <-]. split_and!; try done. by apply list_elem_of_In.
Qed.

Lemma handleDrop_selects_a_small_bin_witness :
  Scenario.firmware 4096 ∈ [mkFile "notes.txt" 10; Scenario.firmware 4096] ∧
  is_bin (Scenario.firmware 4096) = true ∧
  (size (Scenario.firmware 4096) ≤ 16 * 1024 * 1024)%N ∧
  mk false None = mk false None.
Proof.
  apply (handleDrop_selects_a_small_bin
           [mkFile "notes.txt" 10; Scenario.firmware 4096] (mk true None)).
  reflexivity.
Defined.

(** Only the first ".bin" file of a drop counts: the files before it are
    ignored and the files after it are never looked at, so a drop whose
    first ".bin" file is too large is refused even when a later one would
    do.  A drop without any ".bin" file is refused. *)
Theorem handleDrop_first_bin_decides pre f post card :
  Forall (λ g, is_bin g = false) pre → is_bin f = true →
  handleDrop (pre ++ f :: post) card = handleDrop [f] card ∧
  handleDrop (pre ++ f :: post) card
  = (if (16 * 1024 * 1024 <? size f)%N
     then (mk false (Some "File too large. Maximum size is 16MB"), None)
     else (mk false None, Some f)) ∧
  handleDrop pre card = (mk false (Some "Please drop a .bin firmware file"), None).
Proof.
  intros Hpre Hf. unfold handleDrop.
  rewrite (find_first_bin pre f post), (find_no_bin pre) by done.
  cbn [List.find]. rewrite Hf. done.
Qed.

Lemma handleDrop_first_bin_decides_witness :
  handleDrop ([mkFile "notes.txt" 10] ++ Scenario.firmware 20000000 :: [Scenario.firmware 4096])
    (mk true None)
  = handleDrop [Scenario.firmware 20000000] (mk true None) ∧
  handleDrop ([mkFile "notes.txt" 10] ++ Scenario.firmware 20000000 :: [Scenario.firmware 4096])
    (mk true None)
  = (mk false (Some "File too large. Maximum size is 16MB"), None) ∧
  handleDrop [mkFile "notes.txt" 10] (mk true None)
  = (mk false (Some "Please drop a .bin firmware file"), None).
Proof.
  apply (handleDrop_first_bin_decides [mkFile "notes.txt" 10] (Scenario.firmware 20000000)
           [Scenario.firmware 4096] (mk true None)).
  - repeat constructor.
  - reflexivity.
Defined.

(** The file chooser checks the name only: a ".bin" file of any size is
    handed to the page, also one that the drop zone refuses as larger than
    16 MiB; a file with another name is refused, and no file is no change. *)
Theorem chooser_has_no_size_limit f card :
  (is_bin f = true →
     handleFileInput (Some f) card = (mk (isDragOver card) None, Some f) ∧
     ((16 * 1024 * 1024 < size f)%N →
        handleDrop [f] card = (mk false (Some "File too large. Maximum size is 16MB"), None))) ∧
  (is_bin f = false →
     handleFileInput (Some f) card
     = (mk (isDragOver card) (Some "Please select a .bin firmware file"), None)) ∧
  handleFileInput None card = (card, None).
Proof.
  unfold handleFileInput, handleDrop. split_and!; [|by intros ->|done].
  intros Hf. rewrite Hf. split; [done|]. intros Hbig. cbn [List.find]. rewrite Hf.
  by destruct (N.ltb_spec (16 * 1024 * 1024) (size f)); [|lia].
Qed.

Lemma chooser_has_no_size_limit_witness :
  handleFileInput (Some (Scenario.firmware 20000000)) (mk false None)
  = (mk false None, Some (Scenario.firmware 20000000)) ∧
  handleDrop [Scenario.firmware 20000000] (mk false None)
  = (mk false (Some "File too large. Maximum size is 16MB"), None).
Proof.
  destruct (chooser_has_no_size_limit (Scenario.firmware 20000000) (mk false None))
    as [Hbin _].
  destruct (Hbin eq_refl) as [Hin Hdrop]. split; [exact Hin|]. apply Hdrop. reflexivity.
Defined.

End Intake.

(** ** The page: what every sequence of actions preserves *)

Module PageFacts.
Import FlashService Views.
Import Page.

Lemma handleFlash_frame self startTime endTime ui :
  Index.isConnected (Index.handleFlash self startTime endTime ui) = Index.isConnected ui ∧
  Index.firmwareFile (Index.handleFlash self startTime endTime ui) = Index.firmwareFile ui ∧
  Index.advancedSettings (Index.handleFlash self startTime endTime ui)
  = Index.advancedSettings ui.
Proof.
  unfold Index.handleFlash.
  destruct (Index.firmwareFile ui) as [fw|] eqn:Hfw; [|by rewrite Hfw].
  destruct (Index.isConnected ui) eqn:Hconn; cbn [negb]; [|by rewrite Hfw, Hconn].
  rewrite FlashFacts.flash_feeds.
  destruct (flash_result _ _); cbn -[Index.steps Index.seed];
    match goal with |- context [feed ?f ?u ?es] =>
      destruct (HandlerFacts.feed_inputs (Index.steps (Index.advancedSettings ui)) u es)
        as (-> & -> & -> & _) end; cbn -[Index.steps Index.seed]; by rewrite Hfw, Hconn.
Qed.

Lemma connect_keeps_handle env self :
  (is_Some (port self) → is_Some (port (connect env self).1)) ∧
  (∀ info, (connect env self).2 = inr info → is_Some (port (connect env self).1)).
Proof.
  unfold connect, SerialPort_open.
  destruct (requestPort env) as [e|q]; cbn -[detectDevice]; [by split|].
  destruct (decide _); cbn -[detectDevice]; [by split|].
  destruct (open_fails env); cbn -[detectDevice]; by split.
Qed.

Lemma handleConnect_cases env pg :
  (∃ info, (connect env (flashService pg)).2 = inr info ∧
     handleConnect env pg
     = Page.mk (connect env (flashService pg)).1
         (Index.setFlashLogs
            (λ prev, prev ++ ["Connected to " +:+ show (chip info) +:+ " at " +:+ port_label info])
            (setIsConnected true (setDeviceInfo (Some info) (ui pg))))
         false None (card pg)) ∨
  (∃ err, (connect env (flashService pg)).2 = inl err ∧
     handleConnect env pg
     = Page.mk (connect env (flashService pg)).1 (ui pg) false
         (Some (getErrorMessage err +:+ " " +:+ getErrorSuggestion err)) (card pg)).
Proof.
  unfold handleConnect. cbn [flashService ui connecting deviceError card fst snd].
  destruct (connect env (Page.flashService pg)) as [service [err|info]];
    cbn [flashService ui connecting deviceError card fst snd].
  - right. by exists err.
  - left. by exists info.
Qed.

Lemma flash_button_enabled ui :
  FlashCard.actionButton (canFlash ui) (Index.isFlashing ui) (Index.flashError ui)
    (Index.flashCompleted ui) = FlashCard.FlashFirmware false →
  Index.isConnected ui = true ∧ ∃ fw, Index.firmwareFile ui = Some fw.
Proof.
  unfold FlashCard.actionButton, canFlash.
  destruct (_ || _); [done|]. intros [= Hdis].
  apply orb_false_elim in Hdis as [Hcan _]. apply negb_false_iff in Hcan.
  apply andb_true_iff in Hcan as [Hcan _]. apply andb_true_iff in Hcan as [Hc Hf].
  split; [done|]. apply bool_decide_eq_true in Hf as [fw Hf]. by exists fw.
Qed.

Lemma select_settled r pg :
  settled pg → (∀ f, r.2 = Some f → FirmwareCard.is_bin f = true) → settled (select r pg).
Proof.
  intros (Hc & Hfl & Herr & Hport & Hbin) Hr. unfold settled, select.
  cbn [flashService ui connecting deviceError card fst snd].
  destruct r.2 as [f|] eqn:Hf; [|done].
  split_and!; try done; intros g [= <-]; by apply Hr.
Qed.

Lemma step_settled pg a : settled pg → settled (step pg a).
Proof.
  intros Hs. pose proof Hs as (Hc & Hfl & Herr & Hport & Hbin).
  destruct a as [env|files|file|settings|startTime endTime]; cbn [step].
  - rewrite Hc. destruct (handleConnect_cases env pg) as [(info & Hok & ->)|(err & Hko & ->)];
      unfold settled; cbn [flashService ui connecting deviceError card fst snd];
      split_and!; try done.
    + intros _. by apply (connect_keeps_handle env (flashService pg)) with info.
    + intros Hconn. by apply connect_keeps_handle, Hport.
  - apply select_settled; [done|]. intros f Hf. unfold FirmwareCard.handleDrop in Hf.
    destruct (List.find _ files) as [g|] eqn:Hfind; [|done].
    apply List.find_some in Hfind as [_ Hg].
    destruct (_ <? _)%N; [done|]. by injection Hf as <-.
  - rewrite Hfl. apply select_settled; [done|]. intros f Hf.
    unfold FirmwareCard.handleFileInput in Hf. destruct file as [g|]; [|done].
    destruct (FirmwareCard.is_bin g) eqn:Hg; [|done]. by injection Hf as <-.
  - by rewrite Hfl.
  - destruct (FlashCard.actionButton _ _ _ _) as [|[|]] eqn:Hbutton; [|done|].
    + destruct (HandlerStates.handleReset_state (ui pg))
        as (Hic & _ & Hff & _ & Hif & _ & _ & _ & He & _).
      unfold settled; cbn [flashService ui connecting deviceError card fst snd].
      rewrite Hic, Hff, Hif, He. done.
    + apply flash_button_enabled in Hbutton as [Hconn [fw Hfw]].
      destruct (Hport Hconn) as [p Hp].
      destruct (HandlerStates.handleFlash_connected_state (flashService pg) p
                  startTime endTime (ui pg) fw Hp Hfw Hconn)
        as (_ & _ & He & Hif & _ & _ & _ & Hic & Hff & _).
      unfold settled; cbn [flashService ui connecting deviceError card fst snd].
      rewrite He, Hif, Hic, Hff. split_and!; try done. by rewrite <- Hfw.
Qed.

Lemma initial_settled : settled initial.
Proof. unfold settled, initial; cbn. split_and!; done. Qed.

Lemma run_settled pg actions : settled pg → settled (run pg actions).
Proof.
  unfold run. revert pg; induction actions as [|a actions IH]; intros pg Hs; [done|].
  cbn [foldl]. by apply IH, step_settled.
Qed.

Lemma step_monotone pg a :
  open_ports (flashService pg) ⊆ open_ports (flashService (step pg a)) ∧
  (Index.isConnected (ui pg) = true → Index.isConnected (ui (step pg a)) = true).
Proof.
  destruct a as [env|files|file|settings|startTime endTime]; cbn [step].
  - destruct (connecting pg); [done|].
    destruct (handleConnect_cases env pg) as [(info & Hok & ->)|(err & Hko & ->)];
      cbn [flashService ui connecting deviceError card fst snd];
      (split; [apply Session.connect_keeps_open_ports|done]).
  - unfold select. by destruct (_.2).
  - destruct (Index.isFlashing (ui pg)); [done|]. unfold select. by destruct (_.2).
  - by destruct (Index.isFlashing (ui pg)).
  - destruct (FlashCard.actionButton _ _ _ _) as [|[|]]; [|done|].
    + cbn [flashService ui connecting deviceError card fst snd].
      destruct (HandlerStates.handleReset_state (ui pg)) as (-> & _). done.
    + cbn [flashService ui connecting deviceError card fst snd].
      destruct (handleFlash_frame (flashService pg) startTime endTime (ui pg)) as (-> & _).
      done.
Qed.

End PageFacts.

(** ** The page: properties of every session of use *)

Module PageProperties.
Import FlashService Views Scenario.
Import Page.

Lemma connect_error_shape env self err :
  (connect env self).2 = inl err → ∃ cause, err = connect_failed cause.
Proof.
  unfold connect, SerialPort_open.
  destruct (requestPort env) as [e|q]; cbn -[detectDevice].
  - intros [= <-]. by exists e.
  - destruct (decide _); cbn -[detectDevice].
    + intros [= <-]. by eexists.
    + destruct (open_fails env) as [e|]; cbn -[detectDevice]; [|done].
      intros [= <-]. by exists e.
Qed.

(** [handleConnect] ends with [connecting] false in both outcomes.  When
    [connect] returns a device, the page shows it as connected, clears the
    device error and logs one line.  When [connect] throws, nothing of the
    flash state changes (a page that showed a connected device still does)
    and the device error is the raw "Failed to connect: ..." message
    followed by the generic suggestion. *)
Theorem handleConnect_outcome env pg :
  connecting (handleConnect env pg) = false ∧
  flashService (handleConnect env pg) = (connect env (flashService pg)).1 ∧
  card (handleConnect env pg) = card pg ∧
  (∀ info, (connect env (flashService pg)).2 = inr info →
     Index.isConnected (ui (handleConnect env pg)) = true ∧
     Index.deviceInfo (ui (handleConnect env pg)) = Some info ∧
     deviceError (handleConnect env pg) = None ∧
     Index.flashLogs (ui (handleConnect env pg))
     = Index.flashLogs (ui pg)
       ++ ["Connected to " +:+ show (chip info) +:+ " at " +:+ port_label info]) ∧
  (∀ err, (connect env (flashService pg)).2 = inl err →
     ui (handleConnect env pg) = ui pg ∧
     ∃ cause,
       deviceError (handleConnect env pg)
       = Some ("Failed to connect: " +:+ Js.message cause +:+
               " Check your device connection and try again.")).
Proof.
  destruct (PageFacts.handleConnect_cases env pg) as [(info & Hok & ->)|(err & Hko & ->)];
    cbn [flashService ui connecting deviceError card]; split_and!; try done.
  - intros info' Hok'. rewrite Hok in Hok'. injection Hok' as <-. done.
  - intros err' Hko'. by rewrite Hok in Hko'.
  - intros info' Hok'. by rewrite Hko in Hok'.
  - intros err' Hko'. rewrite Hko in Hko'. injection Hko' as <-. split; [done|].
    destruct (connect_error_shape env _ err Hko) as [cause ->]. by exists cause.
Qed.

Lemma handleConnect_outcome_witness :
  (Index.isConnected (ui (handleConnect (pick portA) initial)) = true ∧
   Index.deviceInfo (ui (handleConnect (pick portA) initial))
   = Some (detectDevice (pick portA) connected) ∧
   deviceError (handleConnect (pick portA) initial) = None ∧
   Index.flashLogs (ui (handleConnect (pick portA) initial))
   = Index.flashLogs (ui initial)
     ++ ["Connected to " +:+ show (chip (detectDevice (pick portA) connected)) +:+
         " at " +:+ port_label (detectDevice (pick portA) connected)]) ∧
  (ui (handleConnect cancel initial) = ui initial ∧
   ∃ cause,
     deviceError (handleConnect cancel initial)
     = Some ("Failed to connect: " +:+ Js.message cause +:+
             " Check your device connection and try again.")).
Proof.
  split.
  - apply (proj1 (proj2 (proj2 (proj2 (handleConnect_outcome (pick portA) initial))))).
    reflexivity.
  - apply (proj2 (proj2 (proj2 (proj2 (handleConnect_outcome cancel initial))))
             (connect_failed (Js.mkError "NotFoundError" "No port selected by the user."))).
    reflexivity.
Defined.

(** Whatever the user does from the initial page, one handler at a time:
    between two handlers nothing is in progress, the page that shows a
    connected device has a service that holds a port, and no flash error
    is ever shown: the failure branch of the flash handler is never
    taken. *)
Theorem page_never_shows_a_flash_error actions :
  Index.flashError (ui (run initial actions)) = None ∧
  Index.isFlashing (ui (run initial actions)) = false ∧
  connecting (run initial actions) = false ∧
  (Index.isConnected (ui (run initial actions)) = true →
     is_Some (port (flashService (run initial actions)))).
Proof.
  destruct (PageFacts.run_settled initial actions PageFacts.initial_settled)
    as (? & ? & ? & ? & _). done.
Qed.

(** Whatever the user does from the initial page, the firmware file the
    page holds has a name that ends in ".bin". *)
Theorem page_holds_only_bin_files actions f :
  Index.firmwareFile (ui (run initial actions)) = Some f → FirmwareCard.is_bin f = true.
Proof.
  destruct (PageFacts.run_settled initial actions PageFacts.initial_settled)
    as (_ & _ & _ & _ & Hbin). apply Hbin.
Qed.

Lemma page_holds_only_bin_files_witness :
  FirmwareCard.is_bin (firmware 20000000) = true.
Proof.
  apply (page_holds_only_bin_files
           [DropFiles [mkFile "notes.txt" 10]; ChooseFile (Some (firmware 20000000))]).
  reflexivity.
Defined.

(** From any state of the page and whatever the user does, no port that
    is open is ever closed (no handler calls [disconnect]), and a page
    that shows a connected device keeps showing one, also after a failed
    reconnection. *)
Theorem page_never_disconnects pg actions :
  open_ports (flashService pg) ⊆ open_ports (flashService (run pg actions)) ∧
  (Index.isConnected (ui pg) = true → Index.isConnected (ui (run pg actions)) = true).
Proof.
  unfold run. revert pg; induction actions as [|a actions IH]; intros pg; [done|].
  cbn [foldl]. destruct (PageFacts.step_monotone pg a) as [Hports Hconn].
  destruct (IH (step pg a)) as [Hports' Hconn']. split; [by transitivity (open_ports (flashService (step pg a)))|auto].
Qed.

Lemma page_never_disconnects_witness :
  open_ports (flashService (handleConnect (pick portA) initial))
    ⊆ open_ports (flashService (run (handleConnect (pick portA) initial)
                                  [ClickConnect (pick_unopenable portB); ClickFlash 0 1])) ∧
  Index.isConnected (ui (run (handleConnect (pick portA) initial)
                           [ClickConnect (pick_unopenable portB); ClickFlash 0 1])) = true.
Proof.
  destruct (page_never_disconnects (handleConnect (pick portA) initial)
              [ClickConnect (pick_unopenable portB); ClickFlash 0 1]) as [Hports Hconn].
  split; [exact Hports|]. apply Hconn. reflexivity.
Defined.

(** A whole session: from the initial page, a successful connect, a
    ".bin" file of any size from the file chooser and a click on "Flash
    Firmware" end with a completed flash: the six default phases completed
    and the statistics carrying the size of the file and the default baud
    rate.  The next click on the button of the flash card is "Flash Again":
    it clears the completion and sets the six phases back to pending. *)
Theorem connect_choose_flash env info f startTime endTime startTime' endTime' :
  (connect env init).2 = inr info →
  FirmwareCard.is_bin f = true →
  Index.flashCompleted
    (ui (run initial [ClickConnect env; ChooseFile (Some f); ClickFlash startTime endTime]))
  = true ∧
  Index.flashSteps
    (ui (run initial [ClickConnect env; ChooseFile (Some f); ClickFlash startTime endTime]))
  = (λ n, Index.mkStep n Index.completed)
      <$> ["Connecting"; "Syncing"; "Erasing"; "Writing"; "Verifying"; "Done"] ∧
  (∃ stats,
     Index.flashStats
       (ui (run initial [ClickConnect env; ChooseFile (Some f); ClickFlash startTime endTime]))
     = Some stats ∧
     Index.fileSize stats = size f ∧ Index.stats_baudRate stats = 115200) ∧
  Index.flashCompleted
    (ui (run initial [ClickConnect env; ChooseFile (Some f); ClickFlash startTime endTime;
                      ClickFlash startTime' endTime']))
  = false ∧
  Index.flashSteps
    (ui (run initial [ClickConnect env; ChooseFile (Some f); ClickFlash startTime endTime;
                      ClickFlash startTime' endTime']))
  = Index.initialSteps.
Proof.
  intros Hok Hbin. unfold run. cbn [foldl].
  assert (step initial (ClickConnect env) = handleConnect env initial) as -> by done.
  destruct (PageFacts.handleConnect_cases env initial) as [(info' & _ & ->)|(err & Hko & _)];
    [|change (flashService initial) with init in Hko; by rewrite Hok in Hko].
  change (flashService initial) with init.
  destruct (proj2 (PageFacts.connect_keeps_handle env init) info Hok) as [p Hp].
  set (service := (connect env init).1) in *.
  set (ui1 := Index.setFlashLogs _ _).
  assert (step (Page.mk service ui1 false None (card initial)) (ChooseFile (Some f))
          = Page.mk service (setFirmwareFile (Some f) ui1) false None
              (FirmwareCard.mk false None)) as ->.
  { cbn [step ui]. change (Index.isFlashing ui1) with false. cbv iota.
    unfold FirmwareCard.handleFileInput. rewrite Hbin. reflexivity. }
  set (ui2 := setFirmwareFile (Some f) ui1).
  assert (step (Page.mk service ui2 false None (FirmwareCard.mk false None))
            (ClickFlash startTime endTime)
          = Page.mk service (Index.handleFlash service startTime endTime ui2) false None
              (FirmwareCard.mk false None)) as -> by reflexivity.
  destruct (HandlerStates.handleFlash_connected_state service p startTime endTime ui2 f
              Hp eq_refl eq_refl)
    as (Hsteps & Hdone & Herr & _ & _ & _ & _ & _ & _ & _ & stats & Hstats & Hsize & Hbaud & _).
  assert (step (Page.mk service (Index.handleFlash service startTime endTime ui2) false None
                  (FirmwareCard.mk false None)) (ClickFlash startTime' endTime')
          = Page.mk service (Index.handleReset (Index.handleFlash service startTime endTime ui2))
              false None (FirmwareCard.mk false None)) as ->.
  { cbn [step ui flashService connecting deviceError card].
    unfold FlashCard.actionButton. by rewrite Hdone. }
  cbn [ui].
  destruct (HandlerStates.handleReset_state (Index.handleFlash service startTime endTime ui2))
    as (_ & _ & _ & _ & _ & _ & _ & Hreset & _ & Hnot & _).
  rewrite Hdone, Hsteps, Hreset, Hnot, Hsteps. split_and!; try done.
  by exists stats.
Qed.

Lemma connect_choose_flash_witness :
  Index.flashCompleted
    (ui (run initial [ClickConnect (pick portA); ChooseFile (Some (firmware 20000000));
                      ClickFlash 1000 5350]))
  = true ∧
  Index.flashSteps
    (ui (run initial [ClickConnect (pick portA); ChooseFile (Some (firmware 20000000));
                      ClickFlash 1000 5350]))
  = (λ n, Index.mkStep n Index.completed)
      <$> ["Connecting"; "Syncing"; "Erasing"; "Writing"; "Verifying"; "Done"] ∧
  (∃ stats,
     Index.flashStats
       (ui (run initial [ClickConnect (pick portA); ChooseFile (Some (firmware 20000000));
                         ClickFlash 1000 5350]))
     = Some stats ∧
     Index.fileSize stats = 20000000%N ∧ Index.stats_baudRate stats = 115200) ∧
  Index.flashCompleted
    (ui (run initial [ClickConnect (pick portA); ChooseFile (Some (firmware 20000000));
                      ClickFlash 1000 5350; ClickFlash 6000 6001]))
  = false ∧
  Index.flashSteps
    (ui (run initial [ClickConnect (pick portA); ChooseFile (Some (firmware 20000000));
                      ClickFlash 1000 5350; ClickFlash 6000 6001]))
  = Index.initialSteps.
Proof.
  apply (connect_choose_flash (pick portA) (detectDevice (pick portA) connected)
           (firmware 20000000) 1000 5350 6000 6001); reflexivity.
Defined.

End PageProperties.
